(** * go-common/log: the LogDNA backend (logdna.go)

    A shallow embedding of [src/log/logdna.go]: the batch buffer
    ([payload]), the delivery sender ([client.send]), the logger adapter
    ([dnalog]), the staleness monitor and the process-wide client
    registry ([newDNALogger]), followed by the properties of the
    specification stated on that embedding.

    Conventions.
    - Go pointers to clients are addresses into [heap]; the [payload] and
      the [monitor] a client owns are allocated with it and only ever
      reached through it, so they are stored inline.
    - Every method is a computation in the state monad [M]: it returns
      normally ([Ok]), panics ([Panic], after running its deferred calls)
      or blocks for ever on a lock or channel ([Blocked]).
    - A method call runs to completion; [go f()] only records the
      goroutine in [goroutines], and a scheduler step runs it later.
    - Library functions whose result the program does not control
      ([url.Parse], [url.QueryEscape], [http.Post]) are Section variables. *)

From Stdlib Require Import ZArith String Ascii List DecimalString HexadecimalString Lia.
From stdpp Require Import gmap strings list fin_maps sorting.

#[local] Set Warnings "-register-all".
Local Open Scope Z_scope.
Local Open Scope string_scope.

(** ** Go values passed as [interface{}] *)

Inductive value :=
| VNil
| VString (s : string)
| VInt (z : Z)
| VBool (b : bool)
| VError (s : string)                  (* errors.New(s) *)
| VChan (elem : string) (addr : N).    (* a chan elem, printed as its address *)

Definition FormatInt (z : Z) : string :=
  DecimalString.NilZero.string_of_int (Z.to_int z).

(** [fmt.Sprintf("%v", val)] *)
Definition Sprintf_v (val : value) : string :=
  match val with
  | VNil => "<nil>"
  | VString s => s
  | VInt z => FormatInt z
  | VBool true => "true"
  | VBool false => "false"
  | VError s => s
  | VChan _ a => "0x" ++ HexadecimalString.NilZero.string_of_uint (N.to_hex_uint a)
  end.

(** ** package strings *)

Fixpoint Split (s : string) (sep : ascii) : list string :=
  match s with
  | EmptyString => [EmptyString]
  | String c s' =>
      if Ascii.eqb c sep then EmptyString :: Split s' sep
      else match Split s' sep with
           | [] => [String c EmptyString]
           | h :: t => String c h :: t
           end
  end.

Fixpoint Join (elems : list string) (sep : string) : string :=
  match elems with
  | [] => ""
  | [e] => e
  | e :: rest => e ++ sep ++ Join rest sep
  end.

Definition key_le {A} (a b : string * A) : Prop := String.leb a.1 b.1 = true.

#[global] Instance key_le_dec {A} (a b : string * A) : Decision (key_le a b) :=
  decide (String.leb a.1 b.1 = true).

(** Go iterates over the keys of a map in sorted order when it encodes. *)
Definition sort_keys {A} (kvs : list (string * A)) : list (string * A) :=
  merge_sort key_le kvs.

(** ** encoding/json, as abstract syntax *)

Inductive json :=
| JNull
| JBool (b : bool)
| JNumber (z : Z)
| JString (s : string)
| JArray (elems : list json)
| JObject (fields : list (string * json)).

(** [json.Marshal] returns the encoding ([inr]) or an error ([inl]). *)
Definition Marshal_value (v : value) : string + json :=
  match v with
  | VNil => inr JNull
  | VString s => inr (JString s)
  | VInt z => inr (JNumber z)
  | VBool b => inr (JBool b)
  | VError _ => inr (JObject [])
  | VChan elem _ => inl ("json: unsupported type: chan " ++ elem)
  end.

(** Encode the elements in order; the first error ends the encoding. *)
Fixpoint Marshal_all {A B} (f : A → string + B) (l : list A) : string + list B :=
  match l with
  | [] => inr []
  | x :: rest =>
      match f x with
      | inl err => inl err
      | inr y =>
          match Marshal_all f rest with
          | inl err => inl err
          | inr ys => inr (y :: ys)
          end
      end
  end.

(** ** The buffered record *)

Record line := {
  Timestamp : Z;
  Line : string;
  App : string;
  Level : string;
  Env : string;
  Meta : gmap string value
}.

Definition omitempty (name : string) (s : string) : list (string * json) :=
  if String.eqb s "" then [] else [(name, JString s)].

Definition Marshal_entry (kv : string * value) : string + (string * json) :=
  match Marshal_value kv.2 with
  | inl err => inl err
  | inr j => inr (kv.1, j)
  end.

Definition Marshal_Meta (m : gmap string value) : string + list (string * json) :=
  match Marshal_all Marshal_entry (sort_keys (map_to_list m)) with
  | inl err => inl err
  | inr [] => inr []
  | inr fields => inr [("meta", JObject fields)]
  end.

Definition Marshal_line (l : line) : string + json :=
  match Marshal_Meta (Meta l) with
  | inl err => inl err
  | inr meta =>
      inr (JObject ([("timestamp", JNumber (Timestamp l));
                     ("line", JString (Line l));
                     ("app", JString (App l))]
                    ++ omitempty "level" (Level l)
                    ++ omitempty "env" (Env l)
                    ++ meta))
  end.

(** ** Locks *)

(** [sync.Mutex]: [true] when held. *)
Definition Mutex := bool.

Record RWMutex := { writer : bool; readers : nat }.

Definition RWMutex_free : RWMutex := {| writer := false; readers := 0 |}.

(** ** Outcomes and the state monad *)

Inductive outcome (S A : Type) :=
| Ok (a : A) (s : S)
| Panic (msg : string) (s : S)
| Blocked.
Arguments Ok {S A} a s.
Arguments Panic {S A} msg s.
Arguments Blocked {S A}.

Definition M (S A : Type) : Type := S → outcome S A.

Definition ret {S A} (a : A) : M S A := fun s => Ok a s.

Definition bind {S A B} (m : M S A) (k : A → M S B) : M S B :=
  fun s =>
    match m s with
    | Ok a s' => k a s'
    | Panic msg s' => Panic msg s'
    | Blocked => Blocked
    end.

Definition panic {S A} (msg : string) : M S A := fun s => Panic msg s.

Definition nil_dereference : string :=
  "runtime error: invalid memory address or nil pointer dereference".
Definition block {S A} : M S A := fun _ => Blocked.
Definition gets {S A} (f : S → A) : M S A := fun s => Ok (f s) s.
Definition modify {S} (f : S → S) : M S unit := fun s => Ok tt (f s).

Declare Scope go_scope.
Delimit Scope go_scope with go.
Notation "x <- m ;; k" := (bind m (fun x => k))
  (at level 20, m at level 99, k at level 200, format "x  <-  m  ;;  '/' k") : go_scope.
Notation "m ;; k" := (bind m (fun _ => k))
  (at level 100, k at level 200, right associativity, format "m  ;;  '/' k") : go_scope.

(** [defer d; body]: [d] runs when [body] returns and when it panics. *)
Definition defer {S A} (d : M S unit) (body : M S A) : M S A :=
  fun s =>
    match body s with
    | Ok a s' =>
        match d s' with
        | Ok _ s'' => Ok a s''
        | Panic msg s'' => Panic msg s''
        | Blocked => Blocked
        end
    | Panic msg s' =>
        match d s' with
        | Ok _ s'' => Panic msg s''
        | Panic msg' s'' => Panic msg' s''
        | Blocked => Blocked
        end
    | Blocked => Blocked
    end.

(** Run a computation on a component [T] of the state [S]; a component
    that is not there is a nil dereference. *)
Definition zoom {S T A} (get : S → option T) (set : T → S → S) (m : M T A) : M S A :=
  fun s =>
    match get s with
    | None => Panic nil_dereference s
    | Some t =>
        match m t with
        | Ok a t' => Ok a (set t' s)
        | Panic msg t' => Panic msg (set t' s)
        | Blocked => Blocked
        end
    end.

Local Open Scope go_scope.

Definition Mutex_Lock : M Mutex unit :=
  fun m => if m then Blocked else Ok tt true.

Definition Mutex_Unlock : M Mutex unit :=
  fun m => if m then Ok tt false else Panic "sync: unlock of unlocked mutex" m.

Definition RWMutex_Lock : M RWMutex unit :=
  fun m =>
    if writer m || negb (readers m =? 0)%nat then Blocked
    else Ok tt {| writer := true; readers := readers m |}.

Definition RWMutex_Unlock : M RWMutex unit :=
  fun m =>
    if writer m then Ok tt {| writer := false; readers := readers m |}
    else Panic "sync: Unlock of unlocked RWMutex" m.

Definition RWMutex_RLock : M RWMutex unit :=
  fun m =>
    if writer m then Blocked
    else Ok tt {| writer := false; readers := S (readers m) |}.

Definition RWMutex_RUnlock : M RWMutex unit :=
  fun m =>
    match readers m with
    | O => Panic "sync: RUnlock of unlocked RWMutex" m
    | S n => Ok tt {| writer := writer m; readers := n |}
    end.

(** ** Batch buffer: [payload] *)

Definition logdnaBaseURL : string := "https://logs.logdna.com/logs/ingest".
Definition maxNumLines : Z := 100.

Record payload := { Lines : list line; mu : RWMutex }.

Definition on_mu {A} : M RWMutex A → M payload A :=
  zoom (fun p => Some (mu p)) (fun m p => {| Lines := Lines p; mu := m |}).

Definition set_Lines (ls : list line) (p : payload) : payload :=
  {| Lines := ls; mu := mu p |}.

Definition Flush : M payload unit :=
  on_mu RWMutex_Lock ;;
  modify (set_Lines []) ;;
  on_mu RWMutex_Unlock.

Definition Write (l : line) : M payload bool :=
  on_mu RWMutex_Lock ;;
  modify (fun p => set_Lines (Lines p ++ [l]) p) ;;
  readytosend <- gets (fun p => (maxNumLines <=? Z.of_nat (length (Lines p)))%Z) ;;
  on_mu RWMutex_Unlock ;;
  ret readytosend.

(** [uint32(size)] keeps the low 32 bits of the length. *)
Definition Size : M payload Z :=
  on_mu RWMutex_RLock ;;
  size <- gets (fun p => Z.of_nat (length (Lines p))) ;;
  on_mu RWMutex_RUnlock ;;
  ret (size mod 2 ^ 32)%Z.

(** [json.Marshal(c.payload)]: the one exported field, [Lines]. *)
Definition Marshal (p : payload) : string + json :=
  match Marshal_all Marshal_line (Lines p) with
  | inl err => inl err
  | inr ls => inr (JObject [("lines", JArray ls)])
  end.

(** ** Monitor and client *)

(** [done] counts the elements buffered in the channel
    [make(chan struct{}, 1)]. *)
Record monitor := { m_client : nat; done : nat }.

Definition done_cap : nat := 1.

Definition chan_send : M monitor unit :=
  fun m =>
    if (done m <? done_cap)%nat
    then Ok tt {| m_client := m_client m; done := S (done m) |}
    else Blocked.

Definition chan_recv : M monitor unit :=
  fun m =>
    match done m with
    | O => Blocked
    | S n => Ok tt {| m_client := m_client m; done := n |}
    end.

Record client := {
  apikey : string;
  hostname : string;
  mac : string;
  ip : string;
  tags : list string;
  url : string;
  c_monitor : option monitor;
  c_mu : Mutex;
  c_payload : payload
}.

Definition set_monitor (m : option monitor) (c : client) : client :=
  {| apikey := apikey c; hostname := hostname c; mac := mac c; ip := ip c;
     tags := tags c; url := url c; c_monitor := m; c_mu := c_mu c;
     c_payload := c_payload c |}.

Definition set_mu (m : Mutex) (c : client) : client :=
  {| apikey := apikey c; hostname := hostname c; mac := mac c; ip := ip c;
     tags := tags c; url := url c; c_monitor := c_monitor c; c_mu := m;
     c_payload := c_payload c |}.

Definition set_payload (p : payload) (c : client) : client :=
  {| apikey := apikey c; hostname := hostname c; mac := mac c; ip := ip c;
     tags := tags c; url := url c; c_monitor := c_monitor c; c_mu := c_mu c;
     c_payload := p |}.

Definition on_c_mu {A} : M Mutex A → M client A :=
  zoom (fun c => Some (c_mu c)) set_mu.

Definition on_payload {A} : M payload A → M client A :=
  zoom (fun c => Some (c_payload c)) set_payload.

Definition on_monitor {A} : M monitor A → M client A :=
  zoom c_monitor (fun m => set_monitor (Some m)).

(** ** The network, as the program sees it *)

Record Userinfo := { username : string; password : option string }.

Record URL := {
  Scheme : string;
  Host : string;
  Path : string;
  User : option Userinfo;
  RawQuery : string
}.

(** [url.User(username)] *)
Definition url_User (name : string) : Userinfo :=
  {| username := name; password := None |}.

Definition set_User (u : Userinfo) (x : URL) : URL :=
  {| Scheme := Scheme x; Host := Host x; Path := Path x; User := Some u;
     RawQuery := RawQuery x |}.

Definition set_RawQuery (q : string) (x : URL) : URL :=
  {| Scheme := Scheme x; Host := Host x; Path := Path x; User := User x;
     RawQuery := q |}.

(** [url.Values] and its [Set] *)
Abbreviation Values := (gmap string (list string)).

Definition Values_Set (key val : string) (v : Values) : Values :=
  <[key := [val]]> v.

Record request := {
  req_url : URL;
  req_contentType : string;
  req_body : json
}.

(** What [http.Post] gives back: a transport error, or a response with
    its status code and what [ioutil.ReadAll(resp.Body)] yields. *)
Inductive post_result :=
| PostError (err : string)
| PostResponse (StatusCode : Z) (ReadAll : string + string).

(** ** Machine identity, as [net.Interfaces] reports it *)

Record IPNet := {
  IsLoopback : bool;
  To4 : option string        (* To4().String() when To4() is not nil *)
}.

Inductive Addr :=
| AddrIPNet (n : IPNet)
| AddrOther.

Record Interface := {
  HardwareAddr : list N;
  HardwareAddr_String : string;
  Addrs : list Addr
}.

(** ** The process *)

Inductive goroutine :=
| GoSend (c : nat) (force : bool)      (* go l.client.send(force) *)
| GoMonitorRun (c : nat).              (* go m.run(), m the monitor of c *)

Record host := {
  environ : gmap string string;
  interfaces : option (list Interface);   (* None: net.Interfaces fails *)
  clock : Z                               (* time.Now().UnixNano() *)
}.

Record world := {
  os : host;
  heap : list client;
  globalClient : option nat;
  dnaGlobalLock : Mutex;
  goroutines : list goroutine;
  posted : list request;
  stdout : list string;
  forwarded : list (list value)
}.

Definition set_heap (h : list client) (w : world) : world :=
  {| os := os w; heap := h; globalClient := globalClient w;
     dnaGlobalLock := dnaGlobalLock w; goroutines := goroutines w;
     posted := posted w; stdout := stdout w; forwarded := forwarded w |}.

Definition set_globalClient (g : option nat) (w : world) : world :=
  {| os := os w; heap := heap w; globalClient := g;
     dnaGlobalLock := dnaGlobalLock w; goroutines := goroutines w;
     posted := posted w; stdout := stdout w; forwarded := forwarded w |}.

Definition set_dnaGlobalLock (m : Mutex) (w : world) : world :=
  {| os := os w; heap := heap w; globalClient := globalClient w;
     dnaGlobalLock := m; goroutines := goroutines w;
     posted := posted w; stdout := stdout w; forwarded := forwarded w |}.

Definition set_goroutines (g : list goroutine) (w : world) : world :=
  {| os := os w; heap := heap w; globalClient := globalClient w;
     dnaGlobalLock := dnaGlobalLock w; goroutines := g;
     posted := posted w; stdout := stdout w; forwarded := forwarded w |}.

Definition set_posted (p : list request) (w : world) : world :=
  {| os := os w; heap := heap w; globalClient := globalClient w;
     dnaGlobalLock := dnaGlobalLock w; goroutines := goroutines w;
     posted := p; stdout := stdout w; forwarded := forwarded w |}.

Definition set_stdout (o : list string) (w : world) : world :=
  {| os := os w; heap := heap w; globalClient := globalClient w;
     dnaGlobalLock := dnaGlobalLock w; goroutines := goroutines w;
     posted := posted w; stdout := o; forwarded := forwarded w |}.

Definition set_forwarded (f : list (list value)) (w : world) : world :=
  {| os := os w; heap := heap w; globalClient := globalClient w;
     dnaGlobalLock := dnaGlobalLock w; goroutines := goroutines w;
     posted := posted w; stdout := stdout w; forwarded := f |}.

Definition on_client {A} (c : nat) : M client A → M world A :=
  zoom (fun w => heap w !! c) (fun cl w => set_heap (<[c := cl]> (heap w)) w).

Definition on_dnaGlobalLock {A} : M Mutex A → M world A :=
  zoom (fun w => Some (dnaGlobalLock w)) set_dnaGlobalLock.

Definition Getenv (key : string) : M world string :=
  gets (fun w => default "" (environ (os w) !! key)).

(** [time.Now().UnixNano() / 1000000]; Go's [/] truncates. *)
Definition now_ms : M world Z :=
  gets (fun w => Z.quot (clock (os w)) 1000000).

Definition Println (parts : list string) : M world unit :=
  modify (fun w => set_stdout (stdout w ++ [Join parts " "]) w).

Definition go (g : goroutine) : M world unit :=
  modify (fun w => set_goroutines (goroutines w ++ [g]) w).

(** ** The adapter *)

(** The next link of the chain: what its [Log] returns ([None] is a nil
    error). The calls it receives are recorded in [forwarded]. *)
Definition Logger := list value → option string.

Record dnalog := { next : option Logger; l_client : option nat }.

(** The three locals of the loop in [Log]. *)
Record locals := { msg : string; lvl : string; kv : gmap string value }.

Definition index_out_of_range : string := "runtime error: index out of range".

(** The dynamic type of a value, as a failed type assertion prints it. *)
Definition type_name (v : value) : string :=
  match v with
  | VNil => "nil"
  | VString _ => "string"
  | VInt _ => "int"
  | VBool _ => "bool"
  | VError _ => "*errors.errorString"
  | VChan elem _ => "chan " ++ elem
  end.

(** The panic of [v.(string)] on a value that is not a string. *)
Definition not_a_string (v : value) : string :=
  "interface conversion: interface {} is " ++ type_name v ++ ", not string".

(** One iteration of [for i, val := range keyvals]; [inl] is a panic. *)
Definition Log_iter (keyvals : list value) (i : nat) (val : value) (a : locals)
  : string + locals :=
  let valstr := Sprintf_v val in
  if String.eqb valstr "msg" then
    match keyvals !! (i + 1)%nat with
    | None => inl index_out_of_range
    | Some (VString s) => inr {| msg := s; lvl := lvl a; kv := kv a |}
    | Some v => inl (not_a_string v)
    end
  else if String.eqb valstr "level" then
    match keyvals !! (i + 1)%nat with
    | None => inl index_out_of_range
    | Some v => inr {| msg := msg a; lvl := Sprintf_v v; kv := kv a |}
    end
  else if (i mod 2 =? 0)%nat then
    match keyvals !! (i + 1)%nat with
    | None => inl index_out_of_range
    | Some v => inr {| msg := msg a; lvl := lvl a; kv := <[valstr := v]> (kv a) |}
    end
  else inr a.

Fixpoint Log_range (keyvals : list value) (i : nat) (rest : list value) (a : locals)
  : string + locals :=
  match rest with
  | [] => inr a
  | val :: rest' =>
      match Log_iter keyvals i val a with
      | inl p => inl p
      | inr a' => Log_range keyvals (S i) rest' a'
      end
  end.

Definition Log_scan (keyvals : list value) : string + locals :=
  Log_range keyvals 0 keyvals {| msg := ""; lvl := "info"; kv := ∅ |}.

Definition forward (n : Logger) (keyvals : list value) : M world (option string) :=
  modify (fun w => set_forwarded (forwarded w ++ [keyvals]) w) ;;
  ret (n keyvals).

Definition Log (l : dnalog) (keyvals : list value) : M world (option string) :=
  match l_client l with
  | Some c =>
      match Log_scan keyvals with
      | inl p => panic p
      | inr a =>
          now <- now_ms ;;
          app <- on_client c (gets hostname) ;;
          readytosend <- on_client c (on_payload (Write
            {| Timestamp := now; App := app; Line := msg a; Level := lvl a;
               Env := ""; Meta := kv a |})) ;;
          if readytosend then go (GoSend c false) else ret tt
      end
  | None => ret tt
  end ;;
  match next l with
  | Some n => forward n keyvals
  | None => ret None
  end.

(** ** Machine identity *)

Fixpoint getAddr_addrs (hw : string) (addrs : list Addr) : option (string * string) :=
  match addrs with
  | [] => None
  | AddrIPNet ipnet :: rest =>
      if negb (IsLoopback ipnet) then
        match To4 ipnet with
        | Some ip4 => Some (List.hd "" (Split ip4 "/"), hw)
        | None => getAddr_addrs hw rest
        end
      else getAddr_addrs hw rest
  | AddrOther :: rest => getAddr_addrs hw rest
  end.

Fixpoint getAddr_interfaces (ifs : list Interface) : string * string :=
  match ifs with
  | [] => ("", "")
  | i :: rest =>
      match HardwareAddr i with
      | [] => getAddr_interfaces rest
      | _ :: _ =>
          match getAddr_addrs (HardwareAddr_String i) (Addrs i) with
          | Some r => r
          | None => getAddr_interfaces rest
          end
      end
  end.

Definition getAddr : M world (string * string) :=
  gets (fun w =>
          match interfaces (os w) with
          | Some ifs => getAddr_interfaces ifs
          | None => ("", "")
          end).

Section Delivery.

(** [url.Parse], [url.QueryEscape] and the outcome of [http.Post]. *)
Variable url_Parse : string → option URL.
Variable QueryEscape : string → string.
Variable http_Post : request → post_result.

(** [Values.Encode]: keys in sorted order, [key=value] joined by [&]. *)
Definition Encode (v : Values) : string :=
  Join (flat_map
          (fun kvs => List.map (fun x => QueryEscape kvs.1 ++ "=" ++ QueryEscape x) kvs.2)
          (sort_keys (map_to_list v))) "&".

Definition Post (r : request) : M world post_result :=
  modify (fun w => set_posted (posted w ++ [r]) w) ;;
  ret (http_Post r).

(** The query string [send] builds. *)
Definition send_query (c : client) (now : Z) : Values :=
  Values_Set "tags" (Join (tags c) ",")
    (Values_Set "now" (FormatInt now)
       (Values_Set "ip" (ip c)
          (Values_Set "mac" (mac c)
             (Values_Set "hostname" (hostname c) ∅)))).

(** The request [send] posts: [apiurl] is [url.Parse(c.url)]. *)
Definition send_request (cl : client) (apiurl : URL) (now : Z) (body : json) : request :=
  let apiurl := set_User (url_User (apikey cl)) apiurl in
  let qs := send_query cl now in
  let apiurl := set_RawQuery (Encode qs) apiurl in
  {| req_url := apiurl; req_contentType := "application/json"; req_body := body |}.

(** [send] from [json.Marshal] on, with both locks held. *)
Definition send_deliver (c : nat) : M world unit :=
  cl <- on_client c (gets id) ;;
  match Marshal (c_payload cl) with
  | inl err => Println ["Error marshaling logdna payload"; err]
  | inr body =>
      match url_Parse (url cl) with
      | None => panic nil_dereference
      | Some apiurl =>
          now <- now_ms ;;
          resp <- Post (send_request cl apiurl now body) ;;
          match resp with
          | PostError err => Println ["error constructing logdna url"; err]
          | PostResponse StatusCode body =>
              if (400 <=? StatusCode)%Z then
                match body with
                | inl err => Println ["error reading logdna response body"; err]
                | inr b => Println ["error making logdna injest request"; b]
                end
              else ret tt
          end
      end
  end.

Definition send (c : nat) (force : bool) : M world unit :=
  on_client c (on_c_mu Mutex_Lock) ;;
  defer (on_client c (on_c_mu Mutex_Unlock))
    (size <- on_client c (on_payload Size) ;;
     if (size =? 0)%Z then ret tt
     else
       on_client c (on_payload (on_mu RWMutex_Lock)) ;;
       defer (on_client c (on_payload (on_mu RWMutex_Unlock)) ;;
              on_client c (on_payload Flush))
         (send_deliver c)).

Definition Close (l : dnalog) : M world dnalog :=
  match l_client l with
  | Some c =>
      send c true ;;
      on_client c (on_monitor chan_send) ;;
      ret {| next := next l; l_client := None |}
  | None => ret l
  end.

(** ** The staleness monitor *)

Inductive select_case := CaseTimer | CaseDone.

(** One turn of the loop of [monitor.run] for the monitor of client [c];
    the result tells whether the loop goes on. *)
Definition run_step (c : nat) (ev : select_case) : M world bool :=
  match ev with
  | CaseTimer =>
      m <- on_client c (on_monitor (gets id)) ;;
      send (m_client m) true ;;
      ret true
  | CaseDone =>
      on_client c (on_monitor chan_recv) ;;
      ret false
  end.

(** A scheduler step: goroutine [i] runs ([ev] is the case its
    [select] takes, when it is a monitor). *)
Definition schedule (i : nat) (ev : select_case) : M world unit :=
  fun w =>
    match goroutines w !! i with
    | None => Ok tt w
    | Some (GoSend c force) =>
        (modify (fun w => set_goroutines (delete i (goroutines w)) w) ;;
         send c force) w
    | Some (GoMonitorRun c) =>
        (continue <- run_step c ev ;;
         if continue : bool then ret tt
         else modify (fun w => set_goroutines (delete i (goroutines w)) w)) w
    end.

End Delivery.

(** ** The client registry *)

Definition alloc (cl : client) : M world nat :=
  fun w => Ok (length (heap w)) (set_heap (heap w ++ [cl]) w).

Definition newDNALogger (next : option Logger) : M world dnalog :=
  apikey <- Getenv "PP_LOG_KEY" ;;
  c <- (if negb (String.eqb apikey "") then
          on_dnaGlobalLock Mutex_Lock ;;
          defer (on_dnaGlobalLock Mutex_Unlock)
            (g <- gets globalClient ;;
             match g with
             | None =>
                 hostname <- Getenv "PP_HOSTNAME" ;;
                 let hostname :=
                   if String.eqb hostname "" then "hostname.not.provided" else hostname in
                 tagstr <- Getenv "PP_LOG_TAGS" ;;
                 let tags := if negb (String.eqb tagstr "") then Split tagstr "," else [] in
                 logurlstr <- Getenv "PP_LOG_URL" ;;
                 let logurl :=
                   if negb (String.eqb logurlstr "") then logurlstr else logdnaBaseURL in
                 addr <- getAddr ;;
                 gc <- alloc {| apikey := apikey; hostname := hostname;
                                mac := addr.2; ip := addr.1; tags := tags;
                                url := logurl; c_monitor := None; c_mu := false;
                                c_payload := {| Lines := []; mu := RWMutex_free |} |} ;;
                 modify (set_globalClient (Some gc)) ;;
                 on_client gc (modify (set_monitor (Some {| m_client := gc; done := 0 |}))) ;;
                 go (GoMonitorRun gc) ;;
                 gets globalClient
             | Some _ => ret None
             end)
        else ret None) ;;
  ret {| next := next; l_client := c |}.

(** * Auxiliary definitions for the statements *)

(** A buffer nobody holds the lock of. *)
Definition buffer (ls : list line) : payload := {| Lines := ls; mu := RWMutex_free |}.

(** Successive appends, with the result of each. *)
Fixpoint Writes (ls : list line) : M payload (list bool) :=
  match ls with
  | [] => ret []
  | l :: rest =>
      r <- Write l ;;
      rs <- Writes rest ;;
      ret (r :: rs)
  end.

(** What the [k]-th append (counting from 1) onto [n] records returns. *)
Definition ready (n k : nat) : bool := (maxNumLines <=? Z.of_nat (n + k))%Z.

(** Successive calls of [Log]. *)
Fixpoint Logs (l : dnalog) (kvss : list (list value)) : M world unit :=
  match kvss with
  | [] => ret tt
  | keyvals :: rest => Log l keyvals ;; Logs l rest
  end.

(** The record [Log] buffers for [keyvals], when its loop does not panic. *)
Definition record_of (now : Z) (app : string) (keyvals : list value) : option line :=
  match Log_scan keyvals with
  | inl _ => None
  | inr a => Some {| Timestamp := now; App := app; Line := msg a; Level := lvl a;
                     Env := ""; Meta := kv a |}
  end.

(** The loop of [Log] as the adapter contract words it: the sequence is
    read as key/value pairs, the keys "msg" and "level" select message and
    severity, every other key goes into the metadata with its value. *)
Fixpoint scan_pairs (pairs : list (value * value)) (a : locals) : string + locals :=
  match pairs with
  | [] => inr a
  | (k, v) :: rest =>
      let key := Sprintf_v k in
      if String.eqb key "msg" then
        match v with
        | VString s => scan_pairs rest {| msg := s; lvl := lvl a; kv := kv a |}
        | _ => inl (not_a_string v)
        end
      else if String.eqb key "level" then
        scan_pairs rest {| msg := msg a; lvl := Sprintf_v v; kv := kv a |}
      else scan_pairs rest {| msg := msg a; lvl := lvl a; kv := <[key := v]> (kv a) |}
  end.

(** The alternating sequence of the pairs. *)
Definition alternate (pairs : list (value * value)) : list value :=
  flat_map (fun p => [p.1; p.2]) pairs.

(** A value that prints as one of the reserved words. *)
Definition reserved (v : value) : bool :=
  String.eqb (Sprintf_v v) "msg" || String.eqb (Sprintf_v v) "level".

(** What [Log] returns: the error of the next link, if there is one. *)
Definition result_of (l : dnalog) (keyvals : list value) : option string :=
  match next l with
  | Some n => n keyvals
  | None => None
  end.

(** The goroutines [k] successive calls of [Log] start on a buffer of [n]
    records that is not flushed in between. *)
Definition dispatched (c n k : nat) : list goroutine :=
  flat_map (fun i => if ready n i then [GoSend c false] else []) (seq 1 k).

(** The world after the calls [kvss] of [Log] on the client [cl] at [c],
    whose buffer holds [ls] afterwards. *)
Definition logged (l : dnalog) (c : nat) (cl : client) (ls : list line)
    (kvss : list (list value)) (w : world) : world :=
  {| os := os w;
     heap := <[c := set_payload (buffer ls) cl]> (heap w);
     globalClient := globalClient w;
     dnaGlobalLock := dnaGlobalLock w;
     goroutines :=
       goroutines w ++ dispatched c (length (Lines (c_payload cl))) (length kvss);
     posted := posted w;
     stdout := stdout w;
     forwarded := forwarded w ++ match next l with Some _ => kvss | None => [] end |}.

(** What [send] prints for a result of [http.Post]. *)
Definition diagnostics (r : post_result) : list string :=
  match r with
  | PostError err => [Join ["error constructing logdna url"; err] " "]
  | PostResponse StatusCode body =>
      if (400 <=? StatusCode)%Z then
        match body with
        | inl err => [Join ["error reading logdna response body"; err] " "]
        | inr b => [Join ["error making logdna injest request"; b] " "]
        end
      else []
  end.

(** The world after [send] found records in the buffer of the client
    [cl] at [c]: the buffer is empty, [reqs] were posted, [out] printed. *)
Definition delivered (c : nat) (cl : client) (reqs : list request) (out : list string)
    (w : world) : world :=
  {| os := os w;
     heap := <[c := set_payload (buffer []) cl]> (heap w);
     globalClient := globalClient w;
     dnaGlobalLock := dnaGlobalLock w;
     goroutines := goroutines w;
     posted := posted w ++ reqs;
     stdout := stdout w ++ out;
     forwarded := forwarded w |}.

(** ** Concrete inputs *)

Module Sample.

Definition key_set : host :=
  {| environ := <["PP_LOG_KEY" := "secret"]> (<["PP_LOG_TAGS" := "a,b"]> ∅);
     interfaces :=
       Some [{| HardwareAddr := [2%N; 66%N];
                HardwareAddr_String := "02:42";
                Addrs := [AddrOther;
                          AddrIPNet {| IsLoopback := true; To4 := Some "127.0.0.1" |};
                          AddrIPNet {| IsLoopback := false; To4 := Some "10.0.0.7" |}] |}];
     clock := 1500000000123456789 |}.

Definition key_unset : host :=
  {| environ := ∅; interfaces := interfaces key_set; clock := clock key_set |}.

Definition boot (h : host) : world :=
  {| os := h; heap := []; globalClient := None; dnaGlobalLock := false;
     goroutines := []; posted := []; stdout := []; forwarded := [] |}.

Definition the_client (ls : list line) : client :=
  {| apikey := "secret"; hostname := "web-1"; mac := "02:42"; ip := "10.0.0.7";
     tags := ["a"; "b"]; url := logdnaBaseURL;
     c_monitor := Some {| m_client := 0; done := 0 |}; c_mu := false;
     c_payload := buffer ls |}.

(** A process whose one client holds [ls] in its buffer. *)
Definition running (ls : list line) : world :=
  {| os := key_set; heap := [the_client ls]; globalClient := Some 0%nat;
     dnaGlobalLock := false; goroutines := [GoMonitorRun 0]; posted := [];
     stdout := []; forwarded := [] |}.

Definition hello : line :=
  {| Timestamp := 1500000000123; Line := "hello"; App := "web-1"; Level := "info";
     Env := ""; Meta := <["user" := VString "ann"]> ∅ |}.

(** A record whose metadata [json.Marshal] refuses. *)
Definition unmarshalable : line :=
  {| Timestamp := 1500000000123; Line := "hello"; App := "web-1"; Level := "info";
     Env := ""; Meta := <["reply" := VChan "int" 4096]> ∅ |}.

Definition parse (raw : string) : option URL :=
  if String.eqb raw "" then None
  else Some {| Scheme := "https"; Host := "logs.logdna.com"; Path := "/logs/ingest";
               User := None; RawQuery := "" |}.

Definition unreachable (r : request) : post_result :=
  PostError "dial tcp: connection refused".

Definition accepted (r : request) : post_result := PostResponse 200 (inr "").

Definition keyvals : list value :=
  [VString "msg"; VString "hello"; VString "user"; VString "ann"].

Definition adapter : dnalog := {| next := None; l_client := Some 0%nat |}.

Definition escape (s : string) : string := s.

Definition endpoint : URL :=
  {| Scheme := "https"; Host := "logs.logdna.com"; Path := "/logs/ingest";
     User := None; RawQuery := "" |}.

Definition now : Z := 1500000000123.

Definition hello_json : json :=
  JObject [("timestamp", JNumber 1500000000123); ("line", JString "hello");
           ("app", JString "web-1"); ("level", JString "info");
           ("meta", JObject [("user", JString "ann")])].

(** The body of a batch of [n] records [hello]. *)
Definition body (n : nat) : json := JObject [("lines", JArray (repeat hello_json n))].

End Sample.

(** * Further definitions for the statements *)

(** Whether the character [c] occurs in [s]. *)
Fixpoint occurs (c : ascii) (s : string) : bool :=
  match s with
  | EmptyString => false
  | String c' s' => Ascii.eqb c' c || occurs c s'
  end.

(** An address [getAddr] accepts: an IP network that is not loopback and
    has an IPv4 form. *)
Definition usable (a : Addr) : bool :=
  match a with
  | AddrIPNet n => negb (IsLoopback n) && match To4 n with Some _ => true | None => false end
  | AddrOther => false
  end.

(** An interface [getAddr] stops at: it has a hardware address and an
    address [getAddr] accepts. *)
Definition reportable (i : Interface) : bool :=
  match HardwareAddr i with
  | [] => false
  | _ :: _ => existsb usable (Addrs i)
  end.


(** A key/value pair on which the loop of [Log] does not panic: the value
    does not print as a reserved word, and the value of a "msg" key is a
    string. *)
Definition well_formed (p : value * value) : bool :=
  negb (reserved p.2)
  && (if String.eqb (Sprintf_v p.1) "msg"
      then match p.2 with VString _ => true | _ => false end
      else true).

(** ** The process as its callers drive it *)

(** The client a goroutine works for. *)
Definition client_of (g : goroutine) : nat :=
  match g with
  | GoSend c _ => c
  | GoMonitorRun c => c
  end.

Definition is_monitor (g : goroutine) : bool :=
  match g with
  | GoMonitorRun _ => true
  | GoSend _ _ => false
  end.

(** The number of monitor loops that are running. *)
Definition monitors (gs : list goroutine) : nat := length (List.filter is_monitor gs).

Definition holds_client (l : dnalog) : bool :=
  match l_client l with
  | Some _ => true
  | None => false
  end.

(** The number of adapters that hold a client. *)
Definition holders (ads : list dnalog) : nat := length (List.filter holds_client ads).

(** A process just started on the host [h]. *)
Definition start (h : host) : world :=
  {| os := h; heap := []; globalClient := None; dnaGlobalLock := false;
     goroutines := []; posted := []; stdout := []; forwarded := [] |}.

(** The world together with the adapters handed out so far. Go hands out
    pointers to them: [Close] updates the adapter it is called on. *)
Record process := { state : world; adapters : list dnalog }.

Definition on_state {A} : M world A → M process A :=
  zoom (fun p => Some (state p)) (fun w p => {| state := w; adapters := adapters p |}).

(** What can happen to the process: the application builds an adapter,
    logs through one, closes one; the scheduler runs a goroutine; the host
    changes (time passes, the environment is edited). *)
Inductive call :=
| CallNew (nx : option Logger)
| CallLog (j : nat) (keyvals : list value)
| CallClose (j : nat)
| CallRun (i : nat) (ev : select_case)
| CallHost (h : host).

Section Process.

Variable url_Parse : string → option URL.
Variable QueryEscape : string → string.
Variable http_Post : request → post_result.

Definition perform (c : call) : M process unit :=
  match c with
  | CallNew nx =>
      l <- on_state (newDNALogger nx) ;;
      modify (fun p => {| state := state p; adapters := adapters p ++ [l] |})
  | CallLog j keyvals =>
      fun p =>
        match adapters p !! j with
        | None => Ok tt p
        | Some l => (on_state (Log l keyvals) ;; ret tt) p
        end
  | CallClose j =>
      fun p =>
        match adapters p !! j with
        | None => Ok tt p
        | Some l =>
            (l' <- on_state (Close url_Parse QueryEscape http_Post l) ;;
             modify (fun p => {| state := state p; adapters := <[j := l']> (adapters p) |})) p
        end
  | CallRun i ev => on_state (schedule url_Parse QueryEscape http_Post i ev)
  | CallHost h =>
      on_state (modify (fun w =>
        {| os := h; heap := heap w; globalClient := globalClient w;
           dnaGlobalLock := dnaGlobalLock w; goroutines := goroutines w;
           posted := posted w; stdout := stdout w; forwarded := forwarded w |}))
  end.

(** The processes that calls lead to from the start; a call that panics
    leaves the process in the state its deferred calls made. *)
Inductive reachable (h : host) : process → Prop :=
| reachable_start : reachable h {| state := start h; adapters := [] |}
| reachable_return c p p' :
    reachable h p → perform c p = Ok tt p' → reachable h p'
| reachable_panic c p msg p' :
    reachable h p → perform c p = Panic msg p' → reachable h p'.

End Process.

(** Between calls nothing is locked, there is at most one client, which
    is the registered one, its monitor points back to it, every goroutine
    works for it and at most one of them is a monitor loop; the signals in
    [done] and the adapters that may still send one are at most one. *)
Definition tidy_world (n : nat) (w : world) : Prop :=
  dnaGlobalLock w = false
  ∧ match globalClient w with
    | None => heap w = [] ∧ goroutines w = [] ∧ n = 0%nat
    | Some g =>
        g = 0%nat
        ∧ ∃ cl d,
            heap w = [cl]
            ∧ c_mu cl = false ∧ mu (c_payload cl) = RWMutex_free
            ∧ c_monitor cl = Some {| m_client := 0; done := d |}
            ∧ (d + n ≤ 1)%nat
            ∧ Forall (fun g => client_of g = 0%nat) (goroutines w)
            ∧ (monitors (goroutines w) ≤ 1)%nat
    end.

Definition tidy (p : process) : Prop :=
  tidy_world (holders (adapters p)) (state p)
  ∧ Forall (fun l => l_client l = None ∨ l_client l = Some 0%nat) (adapters p).

Section Runs.

Variable url_Parse : string → option URL.
Variable QueryEscape : string → string.
Variable http_Post : request → post_result.

(** The calls [cs] one after the other; a call that cannot proceed is
    passed over. *)
Fixpoint perform_all (cs : list call) (p : process) : process :=
  match cs with
  | [] => p
  | c :: rest =>
      match perform url_Parse QueryEscape http_Post c p with
      | Ok _ p' => perform_all rest p'
      | Panic _ p' => perform_all rest p'
      | Blocked => perform_all rest p
      end
  end.

End Runs.

(** ** More concrete inputs *)

Module Scenario.

(** A host whose only interface with an address has no hardware address. *)
Definition no_hardware : host :=
  {| environ := environ Sample.key_set;
     interfaces :=
       Some [{| HardwareAddr := []; HardwareAddr_String := "";
                Addrs := [AddrIPNet {| IsLoopback := false; To4 := Some "10.0.0.7" |}] |};
             {| HardwareAddr := [2%N; 66%N]; HardwareAddr_String := "02:42";
                Addrs := [AddrIPNet {| IsLoopback := true; To4 := Some "127.0.0.1" |};
                          AddrIPNet {| IsLoopback := false; To4 := None |}] |}];
     clock := clock Sample.key_set |}.

Definition interface : Interface :=
  {| HardwareAddr := [2%N; 66%N];
     HardwareAddr_String := "02:42";
     Addrs := [AddrOther;
               AddrIPNet {| IsLoopback := true; To4 := Some "127.0.0.1" |};
               AddrIPNet {| IsLoopback := false; To4 := Some "10.0.0.7" |}] |}.

(** A client whose endpoint [Sample.parse] rejects. *)
Definition no_endpoint (ls : list line) : client :=
  {| apikey := "secret"; hostname := "web-1"; mac := "02:42"; ip := "10.0.0.7";
     tags := ["a"; "b"]; url := "";
     c_monitor := Some {| m_client := 0; done := 0 |}; c_mu := false;
     c_payload := buffer ls |}.

Definition misconfigured (ls : list line) : world :=
  {| os := Sample.key_set; heap := [no_endpoint ls]; globalClient := Some 0%nat;
     dnaGlobalLock := false; goroutines := [GoMonitorRun 0]; posted := [];
     stdout := []; forwarded := [] |}.

(** As many records as [Size] cannot count. *)
Definition big : nat := Z.to_nat (2 ^ 32).

Definition rejected (r : request) : post_result :=
  PostResponse 503 (inr "service unavailable").

(** The application builds two adapters, logs through the first, a
    monitor tick delivers, the first adapter is closed and the monitor
    takes the signal. *)
Definition calls : list call :=
  [CallNew None; CallNew None; CallLog 0 Sample.keyvals; CallRun 0 CaseTimer;
   CallClose 0; CallRun 0 CaseDone].

Definition booted : process := {| state := start Sample.key_set; adapters := [] |}.

Definition finished : process :=
  perform_all Sample.parse Sample.escape Sample.accepted calls booted.

Definition waiting : process :=
  perform_all Sample.parse Sample.escape Sample.accepted [CallNew None] booted.

End Scenario.

(** * Properties *)

Local Open Scope list_scope.

(** ** The monad *)

Lemma bind_Ok {S A B} (m : M S A) (k : A → M S B) s a s' :
  m s = Ok a s' → bind m k s = k a s'.
Proof. intros H. unfold bind. now rewrite H. Qed.

Lemma bind_Panic {S A B} (m : M S A) (k : A → M S B) s p s' :
  m s = Panic p s' → bind m k s = Panic p s'.
Proof. intros H. unfold bind. now rewrite H. Qed.

(** Unfold the setters and the projections of literal records. *)
Ltac norm :=
  cbv beta iota delta
    [set_payload set_mu set_monitor set_Lines set_heap set_posted set_stdout
     set_goroutines set_forwarded set_globalClient set_dnaGlobalLock
     apikey hostname mac ip tags url c_monitor c_mu c_payload Lines mu
     os heap globalClient dnaGlobalLock goroutines posted stdout forwarded
     next l_client].

(** Normalise a heap in which the client at [c] ([Hc] says it is
    allocated) was overwritten several times. *)
Ltac heap_simpl Hc :=
  repeat (simpl; norm;
          first [ rewrite list_insert_insert_eq
                | rewrite list_lookup_insert_eq
                    by (rewrite ?length_insert; apply (lookup_lt_Some _ _ _ Hc)) ]).

(** ** The batch buffer *)

Lemma Write_buffer ls l :
  Write l (buffer ls)
  = Ok (maxNumLines <=? Z.of_nat (length (ls ++ [l])))%Z (buffer (ls ++ [l])).
Proof. reflexivity. Qed.

Lemma Flush_buffer ls : Flush (buffer ls) = Ok tt (buffer []).
Proof. reflexivity. Qed.

Lemma Size_buffer ls :
  Size (buffer ls) = Ok (Z.of_nat (length ls) mod 2 ^ 32)%Z (buffer ls).
Proof. reflexivity. Qed.

(** [Size] is zero only for the empty buffer, as long as the length fits
    the 32 bits [Size] returns. *)
Lemma Size_nonzero (ls : list line) :
  ls ≠ [] → (Z.of_nat (length ls) < 2 ^ 32)%Z →
  (Z.of_nat (length ls) mod 2 ^ 32 ≠ 0)%Z.
Proof.
  intros Hne Hlt. rewrite Z.mod_small by lia.
  destruct ls; [congruence | simpl; lia].
Qed.

(** C5. For every buffer and every record, [Write] adds the record at the
    end of the sequence, and it returns [true] if and only if the new
    length is at least the capacity threshold of 100. *)
Theorem Write_appends_and_reports_threshold (ls : list line) (l : line) :
  ∃ readytosend,
    Write l (buffer ls) = Ok readytosend (buffer (ls ++ [l]))
    ∧ (readytosend = true ↔ (100 ≤ Z.of_nat (length (ls ++ [l])))%Z).
Proof.
  eexists. split; [apply Write_buffer|].
  unfold maxNumLines. apply Z.leb_le.
Qed.

Lemma Writes_buffer ls pre :
  Writes ls (buffer pre)
  = Ok (List.map (ready (length pre)) (seq 1 (length ls))) (buffer (pre ++ ls)).
Proof.
  revert pre. induction ls as [|l ls IH]; intros pre; simpl.
  - unfold ret. now rewrite app_nil_r.
  - rewrite (bind_Ok _ _ _ _ _ (Write_buffer pre l)).
    rewrite (bind_Ok _ _ _ _ _ (IH (pre ++ [l])%list)). unfold ret.
    rewrite <- app_assoc. simpl. f_equal. f_equal.
    + unfold ready. rewrite length_app. simpl. reflexivity.
    + rewrite <- (seq_shift (length ls) 1), List.map_map. apply List.map_ext.
      intros k. unfold ready. rewrite length_app. simpl. f_equal. f_equal. lia.
Qed.

Lemma ready_from_empty k : ready 0 k = true ↔ (100 ≤ k)%nat.
Proof. unfold ready, maxNumLines. rewrite Z.leb_le. simpl. lia. Qed.

(** ** The adapter's buffering *)

Lemma dispatched_S c n k :
  dispatched c n (S k)
  = ((if ready n 1 then [GoSend c false] else []) ++ dispatched c (S n) k)%list.
Proof.
  unfold dispatched. simpl. f_equal.
  rewrite <- (seq_shift k 1), flat_map_concat_map, List.map_map,
    <- flat_map_concat_map.
  apply flat_map_ext. intros i. unfold ready.
  now replace (n + S i)%nat with (S n + i)%nat by lia.
Qed.

Lemma dispatched_below c n k :
  (n + k < 100)%nat → dispatched c n k = [].
Proof.
  revert n. induction k as [|k IH]; intros n Hlt; [reflexivity|].
  rewrite dispatched_S, IH by lia.
  unfold ready, maxNumLines.
  destruct (Z.leb_spec 100 (Z.of_nat (n + 1))); [lia | reflexivity].
Qed.

Lemma dispatched_above c n k :
  (100 ≤ n + 1)%nat → dispatched c n k = repeat (GoSend c false) k.
Proof.
  revert n. induction k as [|k IH]; intros n Hle; [reflexivity|].
  rewrite dispatched_S, IH by lia.
  unfold ready, maxNumLines.
  destruct (Z.leb_spec 100 (Z.of_nat (n + 1))); [reflexivity | lia].
Qed.

Lemma dispatched_app c n j k :
  dispatched c n (j + k) = (dispatched c n j ++ dispatched c (n + j) k)%list.
Proof.
  revert n. induction j as [|j IH]; intros n.
  - simpl. now rewrite Nat.add_0_r.
  - simpl Nat.add. rewrite !dispatched_S, IH, <- app_assoc.
    now replace (S n + j)%nat with (n + S j)%nat by lia.
Qed.

(** Where no value prints as a reserved word, the loop of [Log] reads
    the sequence pair by pair, as the adapter contract says. *)
Lemma Log_range_pairs pairs : ∀ pre n a,
  length pre = (2 * n)%nat →
  Forall (fun p => reserved p.2 = false) pairs →
  Log_range (pre ++ alternate pairs) (2 * n) (alternate pairs) a = scan_pairs pairs a.
Proof.
  induction pairs as [|[k v] pairs IH]; intros pre n a Hpre Hres; [reflexivity|].
  apply Forall_cons in Hres as [Hv Hres]. simpl in Hv.
  unfold reserved in Hv. apply orb_false_iff in Hv as [Hv1 Hv2].
  assert (Hk : (pre ++ alternate ((k, v) :: pairs)) !! (2 * n + 1)%nat = Some v).
  { rewrite lookup_app_r by lia. now replace (2 * n + 1 - length pre)%nat with 1%nat by lia. }
  assert (Heven : ((2 * n) mod 2 =? 0)%nat = true).
  { now rewrite Nat.mul_comm, Nat.Div0.mod_mul. }
  assert (Hodd : (S (2 * n) mod 2 =? 0)%nat = false).
  { replace (S (2 * n)) with (1 + n * 2)%nat by lia. now rewrite Nat.Div0.mod_add. }
  assert (Hnext : ∀ a',
    Log_range (pre ++ alternate ((k, v) :: pairs)) (S (2 * n)) (v :: alternate pairs) a'
    = scan_pairs pairs a').
  { intros a'. cbn [Log_range]. unfold Log_iter. rewrite Hv1, Hv2, Hodd.
    replace (S (S (2 * n))) with (2 * S n)%nat by lia.
    replace (pre ++ alternate ((k, v) :: pairs)) with ((pre ++ [k; v]) ++ alternate pairs)
      by (now rewrite <- app_assoc).
    apply IH; [rewrite length_app; simpl; lia | exact Hres]. }
  change (alternate ((k, v) :: pairs)) with (k :: v :: alternate pairs) at 2.
  cbn [Log_range scan_pairs]. unfold Log_iter. rewrite Hk, Heven.
  destruct (String.eqb (Sprintf_v k) "msg").
  { destruct v; try reflexivity. apply Hnext. }
  destruct (String.eqb (Sprintf_v k) "level"); apply Hnext.
Qed.

Lemma Log_scan_pairs pairs :
  Forall (fun p => reserved p.2 = false) pairs →
  Log_scan (alternate pairs) = scan_pairs pairs {| msg := ""; lvl := "info"; kv := ∅ |}.
Proof. intros H. now apply (Log_range_pairs pairs [] 0). Qed.

(** One call of [Log] on an enabled adapter, for key/values on which the
    loop does not panic. *)
Lemma Log_enabled l c w cl ls keyvals ln :
  l_client l = Some c → heap w !! c = Some cl → c_payload cl = buffer ls →
  record_of (Z.quot (clock (os w)) 1000000) (hostname cl) keyvals = Some ln →
  Log l keyvals w = Ok (result_of l keyvals) (logged l c cl (ls ++ [ln]) [keyvals] w).
Proof.
  intros Hl Hc Hp Hr. unfold record_of in Hr.
  destruct cl as [ak hn mc ipa tg ur mon cmu pl], w as [o h g gl gs ps so fw],
    l as [nx lc].
  simpl in *. subst lc pl.
  unfold Log, result_of, logged, dispatched. norm.
  destruct (Log_scan keyvals) as [p|a]; [discriminate|]. injection Hr as <-.
  unfold bind, now_ms, on_client, on_payload, zoom, gets, go, modify, ret, forward. norm.
  rewrite Hc. heap_simpl Hc.
  unfold ready. rewrite Nat.add_1_r, length_app. simpl length. rewrite Nat.add_1_r.
  destruct (maxNumLines <=? Z.of_nat (S (length ls)))%Z; destruct nx; heap_simpl Hc;
    rewrite ?app_nil_r; reflexivity.
Qed.

Lemma Logs_enabled l c kvss : ∀ w cl ls lines,
  l_client l = Some c → heap w !! c = Some cl → c_payload cl = buffer ls →
  mapM (record_of (Z.quot (clock (os w)) 1000000) (hostname cl)) kvss = Some lines →
  Logs l kvss w = Ok tt (logged l c cl (ls ++ lines) kvss w).
Proof.
  induction kvss as [|keyvals kvss IH]; intros w cl ls lines Hl Hc Hp Hm.
  - injection Hm as <-. simpl. unfold ret, logged, dispatched. simpl.
    rewrite !app_nil_r, <- Hp.
    destruct w as [o h g gl gs ps so fw], cl. simpl in *.
    rewrite list_insert_id by assumption.
    destruct (next l); now rewrite ?app_nil_r.
  - simpl in Hm.
    destruct (record_of _ _ keyvals) as [ln|] eqn:Hr; [|discriminate].
    destruct (mapM _ kvss) as [lines'|] eqn:Hm'; [|discriminate].
    injection Hm as <-. simpl.
    rewrite (bind_Ok _ _ _ _ _ (Log_enabled _ _ _ _ _ _ _ Hl Hc Hp Hr)).
    rewrite (IH _ (set_payload (buffer (ls ++ [ln])) cl) (ls ++ [ln])%list lines' Hl).
    + destruct w as [o h g gl gs ps so fw], cl as [ak hn mc ipa tg ur mon cmu pl],
        l as [nx lc].
      simpl in Hp, Hc. subst pl. unfold logged. heap_simpl Hc.
      rewrite <- !app_assoc, length_app. simpl length. simpl app.
      change (S (length kvss)) with (1 + length kvss)%nat.
      rewrite (dispatched_app c (length ls) 1 (length kvss)).
      destruct nx; reflexivity.
    + simpl. apply list_lookup_insert_eq. now apply lookup_lt_Some in Hc.
    + reflexivity.
    + exact Hm'.
Qed.

(** ** Delivery *)

Section DeliveryProperties.

Variable url_Parse : string → option URL.
Variable QueryEscape : string → string.
Variable http_Post : request → post_result.

#[local] Abbreviation send := (send url_Parse QueryEscape http_Post).
#[local] Abbreviation Close := (Close url_Parse QueryEscape http_Post).
#[local] Abbreviation send_request := (send_request QueryEscape).

(** [send] when [Size] reports no record: nothing happens. *)
Lemma send_empty c force w cl ls :
  heap w !! c = Some cl → c_mu cl = false → c_payload cl = buffer ls →
  (Z.of_nat (length ls) mod 2 ^ 32 = 0)%Z →
  send c force w = Ok tt w.
Proof.
  intros Hc Hmu Hp Hz.
  destruct cl as [ak hn mc ipa tg ur mon cmu pl], w as [o h g gl gs ps so fw].
  simpl in *. subst cmu pl.
  unfold send, defer, bind, on_client, on_c_mu, on_payload, zoom.
  norm. rewrite Hc. heap_simpl Hc. rewrite Hz. heap_simpl Hc.
  now rewrite list_insert_id.
Qed.

(** [send] when [Size] reports records: whatever becomes of the
    delivery, the deferred call empties the buffer. *)
Lemma send_nonempty c force w cl ls :
  heap w !! c = Some cl → c_mu cl = false → c_payload cl = buffer ls →
  (Z.of_nat (length ls) mod 2 ^ 32 ≠ 0)%Z →
  send c force w =
    match Marshal (buffer ls) with
    | inl err =>
        Ok tt (delivered c cl [] [Join ["Error marshaling logdna payload"; err] " "] w)
    | inr body =>
        match url_Parse (url cl) with
        | None => Panic nil_dereference (delivered c cl [] [] w)
        | Some u =>
            let req := send_request cl u (Z.quot (clock (os w)) 1000000) body in
            Ok tt (delivered c cl [req] (diagnostics (http_Post req)) w)
        end
    end.
Proof.
  intros Hc Hmu Hp Hn.
  destruct cl as [ak hn mc ipa tg ur mon cmu pl], w as [o h g gl gs ps so fw].
  simpl in *. subst cmu pl.
  unfold send, defer, bind, on_client, on_c_mu, on_payload, zoom.
  norm. rewrite Hc. heap_simpl Hc.
  destruct (Z.eqb_spec (Z.of_nat (length ls) mod 2 ^ 32) 0) as [E|_]; [contradiction|].
  heap_simpl Hc.
  unfold send_deliver, bind, on_client, zoom, gets. heap_simpl Hc.
  change (Marshal {| Lines := ls; mu := {| writer := true; readers := 0 |} |})
    with (Marshal (buffer ls)).
  destruct (Marshal (buffer ls)) as [err|body].
  - unfold Println, modify, on_mu, zoom, Flush, bind, delivered. heap_simpl Hc.
    rewrite ?app_nil_r. reflexivity.
  - destruct (url_Parse ur) as [u|].
    + unfold now_ms, gets, Post, bind, modify, ret. norm.
      change (send_request _ u (clock o `quot` 1000000)%Z body)
        with (send_request
                {| apikey := ak; hostname := hn; mac := mc; ip := ipa; tags := tg;
                   url := ur; c_monitor := mon; c_mu := false; c_payload := buffer ls |}
                u (clock o `quot` 1000000)%Z body).
      set (req := send_request _ _ _ _).
      unfold delivered, diagnostics. norm.
      destruct (http_Post req) as [err|sc [err|b]]; [| destruct (400 <=? sc)%Z .. ];
        unfold Println, modify, on_mu, zoom, Flush, bind; heap_simpl Hc;
        rewrite ?app_nil_r; reflexivity.
  + unfold panic, on_mu, zoom, Flush, bind, delivered. heap_simpl Hc.
    rewrite ?app_nil_r. reflexivity.
Qed.

Lemma lookup_delivered c cl reqs out w :
  heap w !! c = Some cl →
  heap (delivered c cl reqs out w) !! c = Some (set_payload (buffer []) cl).
Proof.
  intros Hc. simpl. apply list_lookup_insert_eq. now apply lookup_lt_Some in Hc.
Qed.

(** C10. For every client state, [send true] and [send false] are the
    same computation: [force] is never consulted. In particular the
    monitor's [send(true)] on a timer tick is a no-op when the buffer is
    empty: it returns at once, and nothing is posted, printed or changed. *)
Theorem send_force_is_ignored :
  (∀ c w, send c true w = send c false w)
  ∧ (∀ c w cl d,
       heap w !! c = Some cl → c_mu cl = false → c_payload cl = buffer [] →
       c_monitor cl = Some {| m_client := c; done := d |} →
       send c true w = Ok tt w ∧ run_step url_Parse QueryEscape http_Post c CaseTimer w = Ok true w).
Proof.
  split; [reflexivity|].
  intros c w cl d Hc Hmu Hp Hm.
  assert (Hs : send c true w = Ok tt w) by (now apply (send_empty c true w cl [])).
  split; [exact Hs|].
  unfold run_step, bind, on_client, on_monitor, zoom, gets.
  rewrite Hc, Hm. simpl m_client.
  assert (Hw : set_heap (<[c := set_monitor (Some {| m_client := c; done := d |}) cl]> (heap w)) w = w).
  { destruct w as [o h g gl gs ps so fw], cl as [ak hn mc ipa tg ur mon cmu pl].
    simpl in *. subst mon. unfold set_heap, set_monitor. simpl.
    now rewrite list_insert_id. }
  rewrite Hw, Hs. reflexivity.
Qed.

(** C4. For every non-empty buffer on which [send] is called and whose
    HTTP POST fails at the transport layer, [send] returns with the buffer
    flushed: the buffer of the client is empty afterwards, the records are
    dropped. (Non-empty is what [send] tests, [Size() != 0], which is exact
    for a buffer of fewer than 2^32 records.) *)
Theorem send_transport_failure_flushes c force w cl ls body u err :
  heap w !! c = Some cl → c_mu cl = false → c_payload cl = buffer ls →
  ls ≠ [] → (Z.of_nat (length ls) < 2 ^ 32)%Z →
  Marshal (buffer ls) = inr body →
  url_Parse (url cl) = Some u →
  http_Post (send_request cl u (Z.quot (clock (os w)) 1000000) body) = PostError err →
  ∃ w',
    send c force w = Ok tt w'
    ∧ heap w' !! c = Some (set_payload (buffer []) cl)
    ∧ posted w' = posted w ++ [send_request cl u (Z.quot (clock (os w)) 1000000) body]
    ∧ goroutines w' = goroutines w.
Proof.
  intros Hc Hmu Hp Hne Hlt Hm Hu He.
  rewrite (send_nonempty c force w cl ls Hc Hmu Hp (Size_nonzero ls Hne Hlt)), Hm, Hu.
  eexists. split; [reflexivity|]. split; [|split; reflexivity].
  now apply lookup_delivered.
Qed.

(** C2, as amended. For every non-empty buffer on which [send] is called
    and whose serialization fails, the error is printed, no request is
    posted, and the buffer is flushed as in every other case: the records
    are not retained. (Non-empty as in C4: fewer than 2^32 records.) *)
Theorem send_marshal_failure_flushes c force w cl ls err :
  heap w !! c = Some cl → c_mu cl = false → c_payload cl = buffer ls →
  ls ≠ [] → (Z.of_nat (length ls) < 2 ^ 32)%Z →
  Marshal (buffer ls) = inl err →
  ∃ w',
    send c force w = Ok tt w'
    ∧ heap w' !! c = Some (set_payload (buffer []) cl)
    ∧ posted w' = posted w
    ∧ stdout w' = stdout w ++ [("Error marshaling logdna payload " ++ err)%string].
Proof.
  intros Hc Hmu Hp Hne Hlt Hm.
  rewrite (send_nonempty c force w cl ls Hc Hmu Hp (Size_nonzero ls Hne Hlt)), Hm.
  eexists. split; [reflexivity|]. split; [now apply lookup_delivered|].
  split; [apply app_nil_r | reflexivity].
Qed.

Lemma send_query_lookups cl now :
  let qs := send_query cl now in
  qs !! "hostname" = Some [hostname cl]
  ∧ qs !! "mac" = Some [mac cl]
  ∧ qs !! "ip" = Some [ip cl]
  ∧ qs !! "now" = Some [FormatInt now]
  ∧ qs !! "tags" = Some [Join (tags cl) ","]
  ∧ size qs = 5%nat.
Proof. repeat split. Qed.

(** The encoded query, with the keys in the order [Encode] sorts them. *)
Lemma Encode_send_query cl now :
  Encode QueryEscape (send_query cl now)
  = Join [ (QueryEscape "hostname" ++ "=" ++ QueryEscape (hostname cl))%string;
           (QueryEscape "ip" ++ "=" ++ QueryEscape (ip cl))%string;
           (QueryEscape "mac" ++ "=" ++ QueryEscape (mac cl))%string;
           (QueryEscape "now" ++ "=" ++ QueryEscape (FormatInt now))%string;
           (QueryEscape "tags" ++ "=" ++ QueryEscape (Join (tags cl) ","))%string ] "&".
Proof. reflexivity. Qed.

(** C6. When the API key variable is absent, constructing the adapter
    succeeds and leaves the process as it was, and the adapter has no
    client: [Log] through it buffers nothing, starts no delivery, posts
    and prints nothing (it only forwards to the next link), and [Close]
    does nothing. *)
Theorem newDNALogger_without_key_is_noop (nx : option Logger) (w : world) :
  environ (os w) !! "PP_LOG_KEY" = None →
  ∃ l,
    newDNALogger nx w = Ok l w
    ∧ l = {| next := nx; l_client := None |}
    ∧ (∀ keyvals w', ∃ w'',
         Log l keyvals w' = Ok (result_of l keyvals) w''
         ∧ heap w'' = heap w'
         ∧ goroutines w'' = goroutines w'
         ∧ posted w'' = posted w'
         ∧ stdout w'' = stdout w'
         ∧ globalClient w'' = globalClient w')
    ∧ (∀ w', Close l w' = Ok l w').
Proof.
  intros Hk. eexists. split; [|split; [reflexivity|]].
  - unfold newDNALogger, bind, Getenv, gets. rewrite Hk. reflexivity.
  - split; [|reflexivity].
    intros keyvals w'. unfold Log, result_of, bind, ret, forward. simpl.
    destruct nx; eexists; (split; [reflexivity|]); repeat split.
Qed.

(** Running the goroutine [Log] started last. *)
Lemma schedule_last_send gs c force ev w :
  goroutines w = gs ++ [GoSend c force] →
  schedule url_Parse QueryEscape http_Post (length gs) ev w = send c force (set_goroutines gs w).
Proof.
  intros Hg. unfold schedule.
  rewrite Hg, lookup_app_r, Nat.sub_diag by lia. simpl.
  unfold bind, modify. rewrite Hg, delete_middle, app_nil_r. reflexivity.
Qed.

(** C3, as amended. In a sequence of appends to an empty buffer with no
    flush in between, the [k]-th append returns [readyToFlush = true] if
    and only if [k >= 100]: the 100th is the first to do so, and every
    later one does so again. Appending 150 records through [Log]
    dispatches exactly one delivery, after the 100th record and carrying
    the first 100 records, and leaves the other 50 buffered, when that
    delivery runs before the 101st record is appended. *)
Theorem appends_ready_from_threshold_on :
  (∀ ls : list line, ∃ rs,
      Writes ls (buffer []) = Ok rs (buffer ls)
      ∧ length rs = length ls
      ∧ ∀ k r, rs !! k = Some r → (r = true ↔ (100 ≤ k + 1)%nat))
  ∧ (∀ l c w cl kvss1 kvss2 lines1 lines2 body u ev,
       l_client l = Some c →
       heap w !! c = Some cl → c_mu cl = false → c_payload cl = buffer [] →
       length kvss1 = 100%nat → length kvss2 = 50%nat →
       mapM (record_of (Z.quot (clock (os w)) 1000000) (hostname cl)) kvss1 = Some lines1 →
       mapM (record_of (Z.quot (clock (os w)) 1000000) (hostname cl)) kvss2 = Some lines2 →
       Marshal (buffer lines1) = inr body →
       url_Parse (url cl) = Some u →
       ∃ w1 w2 w3,
         Logs l kvss1 w = Ok tt w1
         ∧ goroutines w1 = goroutines w ++ [GoSend c false]
         ∧ posted w1 = posted w
         ∧ schedule url_Parse QueryEscape http_Post (length (goroutines w)) ev w1 = Ok tt w2
         ∧ goroutines w2 = goroutines w
         ∧ posted w2
           = posted w ++ [send_request cl u (Z.quot (clock (os w)) 1000000) body]
         ∧ Logs l kvss2 w2 = Ok tt w3
         ∧ goroutines w3 = goroutines w
         ∧ posted w3 = posted w2
         ∧ heap w3 !! c = Some (set_payload (buffer lines2) cl)).
Proof.
  split.
  - intros ls. eexists. split; [apply Writes_buffer|].
    split; [now rewrite length_map, length_seq|].
    intros k r Hk. apply list_lookup_fmap_Some in Hk as (i & -> & Hi).
    apply lookup_seq in Hi as [-> _].
    rewrite ready_from_empty. lia.
  - intros l c w cl kvss1 kvss2 lines1 lines2 body u ev
      Hl Hc Hmu Hp Hn1 Hn2 Hm1 Hm2 Hb Hu.
    assert (Hlen1 : length lines1 = 100%nat)
      by (now rewrite <- (length_mapM _ _ _ Hm1)).
    assert (Hlt : (c < length (heap w))%nat) by (now apply lookup_lt_Some in Hc).
    (* the first hundred records *)
    pose proof (Logs_enabled l c kvss1 w cl [] lines1 Hl Hc Hp Hm1) as HL1.
    simpl app in HL1.
    set (w1 := logged l c cl lines1 kvss1 w) in *.
    assert (Hg1 : goroutines w1 = goroutines w ++ [GoSend c false]).
    { unfold w1, logged. simpl. rewrite Hp, Hn1. reflexivity. }
    (* the delivery it started *)
    set (cl1 := set_payload (buffer lines1) cl).
    assert (Hc1 : heap (set_goroutines (goroutines w) w1) !! c = Some cl1).
    { simpl. now apply list_lookup_insert_eq. }
    assert (Hne : lines1 ≠ []) by (intros ->; discriminate).
    assert (Hsz : (Z.of_nat (length lines1) < 2 ^ 32)%Z) by (rewrite Hlen1; reflexivity).
    pose proof (send_nonempty c false _ cl1 lines1 Hc1 Hmu eq_refl
                  (Size_nonzero _ Hne Hsz)) as HS.
    rewrite Hb in HS. change (url cl1) with (url cl) in HS. rewrite Hu in HS.
    cbv zeta in HS.
    set (w2 := delivered c cl1 _ _ _) in HS.
    (* the fifty that follow *)
    set (cl2 := set_payload (buffer []) cl1).
    assert (Hc2 : heap w2 !! c = Some cl2).
    { simpl. apply list_lookup_insert_eq. now rewrite length_insert. }
    pose proof (Logs_enabled l c kvss2 w2 cl2 [] lines2 Hl Hc2 eq_refl Hm2) as HL2.
    simpl app in HL2.
    exists w1, w2, (logged l c cl2 lines2 kvss2 w2).
    split; [exact HL1|]. split; [exact Hg1|]. split; [reflexivity|].
    split; [now rewrite (schedule_last_send _ _ _ _ _ Hg1)|].
    split; [reflexivity|].
    split.
    { destruct cl. reflexivity. }
    split; [exact HL2|].
    split; [simpl; rewrite Hn2; apply app_nil_r|].
    split; [reflexivity|].
    simpl. rewrite list_lookup_insert_eq by (now rewrite !length_insert).
    destruct cl. reflexivity.
Qed.

End DeliveryProperties.

(** ** The shape of the request body *)

Lemma Marshal_all_Forall2 {A B} (f : A → string + B) l ys :
  Marshal_all f l = inr ys → Forall2 (fun x y => f x = inr y) l ys.
Proof.
  revert ys. induction l as [|x l IH]; simpl; intros ys H.
  - injection H as <-. constructor.
  - destruct (f x) as [e|y] eqn:Hx; [discriminate|].
    destruct (Marshal_all f l) as [e|ys']; [discriminate|].
    injection H as <-. constructor; [exact Hx | now apply IH].
Qed.

Lemma Marshal_value_encoding v j :
  Marshal_value v = inr j
  ↔ match v with
    | VNil => j = JNull
    | VString s => j = JString s
    | VInt z => j = JNumber z
    | VBool b => j = JBool b
    | VError _ => j = JObject []
    | VChan _ _ => False
    end.
Proof. destruct v; simpl; split; intros H; try congruence; try contradiction. Qed.

Lemma leb_total_key {A} : Total (@key_le A).
Proof. intros a b. unfold key_le. apply String.leb_total. Qed.

Lemma Sorted_keys_Forall2 {A B} (P : string * A → string * B → Prop) l l' :
  (∀ x y, P x y → y.1 = x.1) → Forall2 P l l' → Sorted key_le l → Sorted key_le l'.
Proof.
  intros HP H. induction H as [|x y l l' Hxy H IH]; intros Hs; [constructor|].
  apply Sorted_inv in Hs as [Hs Hhd]. constructor; [now apply IH|].
  destruct H as [|x2 y2 l2 l2' Hxy2 H2]; [constructor|].
  apply HdRel_inv in Hhd. constructor. unfold key_le in *.
  now rewrite (HP _ _ Hxy), (HP _ _ Hxy2).
Qed.

Lemma Marshal_entry_inr kv f :
  Marshal_entry kv = inr f ↔ f.1 = kv.1 ∧ Marshal_value kv.2 = inr f.2.
Proof.
  unfold Marshal_entry. destruct kv as [k v], f as [k' j]. simpl.
  destruct (Marshal_value v) as [e|j0]; split.
  - discriminate.
  - now intros [_ H].
  - intros H. now injection H as <- <-.
  - intros [-> H]. now injection H as <-.
Qed.

(** The "meta" member of a record: absent for an empty map, and otherwise
    an object with one member for each key, in the order of the keys. *)
Lemma Marshal_Meta_fields (m : gmap string value) meta :
  Marshal_Meta m = inr meta →
  (m = ∅ → meta = [])
  ∧ (m ≠ ∅ →
       ∃ fields,
         meta = [("meta", JObject fields)]
         ∧ length fields = size m
         ∧ Sorted (fun a b => String.leb a.1 b.1 = true) fields
         ∧ ∀ k j, (k, j) ∈ fields
                  ↔ ∃ v, m !! k = Some v ∧ Marshal_value v = inr j).
Proof.
  unfold Marshal_Meta, sort_keys. intros H.
  destruct (Marshal_all Marshal_entry (merge_sort key_le (map_to_list m)))
    as [e|fields] eqn:Hf; [discriminate|].
  apply Marshal_all_Forall2 in Hf.
  assert (Hlen : length fields = size m).
  { rewrite <- (Forall2_length _ _ _ Hf), merge_sort_Permutation.
    apply length_map_to_list. }
  split.
  - intros ->. rewrite map_size_empty in Hlen. destruct fields; [|discriminate].
    now injection H as <-.
  - intros Hne. exists fields. split.
    { destruct fields; [|now injection H as <-].
      symmetry in Hlen. now apply map_size_empty_iff in Hlen. }
    split; [exact Hlen|]. split.
    { apply (Sorted_keys_Forall2 _ _ _ (fun x y Hxy => proj1 (proj1 (Marshal_entry_inr x y) Hxy)) Hf).
      apply (@Sorted_merge_sort _ key_le _ leb_total_key). }
    intros k j. split.
    + intros Hin. apply list_elem_of_lookup in Hin as [i Hi].
      destruct (Forall2_lookup_r _ _ _ _ _ Hf Hi) as ([k' v] & Hkv & He).
      apply Marshal_entry_inr in He as [Hk Hv]. simpl in *. subst k'.
      apply list_elem_of_lookup_2 in Hkv. rewrite merge_sort_Permutation in Hkv.
      apply elem_of_map_to_list in Hkv. eauto.
    + intros (v & Hkv & Hv). apply elem_of_map_to_list in Hkv.
      rewrite <- (merge_sort_Permutation key_le) in Hkv.
      apply list_elem_of_lookup in Hkv as [i Hi].
      destruct (Forall2_lookup_l _ _ _ _ _ Hf Hi) as ([k' j'] & Hfi & He).
      apply Marshal_entry_inr in He as [Hk Hj]. simpl in *. subst k'.
      rewrite Hv in Hj. injection Hj as <-.
      now apply list_elem_of_lookup_2 in Hfi.
Qed.

Lemma Join_concat elems sep : Join elems sep = String.concat sep elems.
Proof.
  induction elems as [|e rest IH]; [reflexivity|].
  destruct rest as [|e' rest]; [reflexivity|].
  change (Join (e :: e' :: rest) sep) with (e ++ sep ++ Join (e' :: rest) sep)%string.
  now rewrite IH.
Qed.

(** One buffered record, as [json.Marshal] writes it with the tags of
    [line]: the three fixed members, "level" and "env" unless empty,
    "meta" unless the map is empty. *)
Lemma Marshal_line_fields ln j :
  Marshal_line ln = inr j →
  ∃ meta,
    j = JObject ([("timestamp", JNumber (Timestamp ln));
                  ("line", JString (Line ln));
                  ("app", JString (App ln))]
                 ++ (if String.eqb (Level ln) "" then [] else [("level", JString (Level ln))])
                 ++ (if String.eqb (Env ln) "" then [] else [("env", JString (Env ln))])
                 ++ meta)
    ∧ (Meta ln = ∅ → meta = [])
    ∧ (Meta ln ≠ ∅ →
         ∃ fields,
           meta = [("meta", JObject fields)]
           ∧ length fields = size (Meta ln)
           ∧ Sorted (fun a b => String.leb a.1 b.1 = true) fields
           ∧ ∀ k j, (k, j) ∈ fields
                    ↔ ∃ v, Meta ln !! k = Some v
                           ∧ match v with
                             | VNil => j = JNull
                             | VString s => j = JString s
                             | VInt z => j = JNumber z
                             | VBool b => j = JBool b
                             | VError _ => j = JObject []
                             | VChan _ _ => False
                             end).
Proof.
  unfold Marshal_line. intros H.
  destruct (Marshal_Meta (Meta ln)) as [e|meta] eqn:Hm; [discriminate|].
  injection H as <-. exists meta. split; [reflexivity|].
  destruct (Marshal_Meta_fields _ _ Hm) as [H0 H1]. split; [exact H0|].
  intros Hne. destruct (H1 Hne) as (fields & -> & Hlen & Hs & Hin).
  exists fields. repeat split; try assumption.
  - intros Hkj. apply Hin in Hkj as (v & Hv & Hj). exists v. split; [exact Hv|].
    now apply Marshal_value_encoding.
  - intros (v & Hv & Hj). apply Hin. exists v. split; [exact Hv|].
    now apply Marshal_value_encoding.
Qed.

Section Request.

Variable url_Parse : string → option URL.
Variable QueryEscape : string → string.
Variable http_Post : request → post_result.

(** C7. For every delivery of a non-empty buffer, the request posted
    carries the API key as the userinfo of the endpoint URL; its query
    string is made of the parameters hostname, ip, mac, now (the current
    time in epoch milliseconds, in decimal) and tags (the configured tags
    joined with commas), each as escaped key, [=], escaped value, joined
    with [&]; its content type is application/json; its body is a JSON
    object whose "lines" member is the array of the buffered records,
    one object per record in buffer order, with the members timestamp,
    line, app, level and env (the last two left out when empty) and meta
    (left out when empty, and otherwise one member per key, in key
    order). A delivery takes place when the payload serializes and the
    endpoint parses. (Non-empty as in C4.) *)
Theorem send_posts_described_request c force w cl ls body u :
  heap w !! c = Some cl → c_mu cl = false → c_payload cl = buffer ls →
  ls ≠ [] → (Z.of_nat (length ls) < 2 ^ 32)%Z →
  Marshal (buffer ls) = inr body →
  url_Parse (url cl) = Some u →
  ∃ w' req jlines,
    send url_Parse QueryEscape http_Post c force w = Ok tt w'
    ∧ posted w' = posted w ++ [req]
    ∧ req_url req
      = {| Scheme := Scheme u; Host := Host u; Path := Path u;
           User := Some {| username := apikey cl; password := None |};
           RawQuery :=
             ((QueryEscape "hostname" ++ "=" ++ QueryEscape (hostname cl))
              ++ "&" ++ (QueryEscape "ip" ++ "=" ++ QueryEscape (ip cl))
              ++ "&" ++ (QueryEscape "mac" ++ "=" ++ QueryEscape (mac cl))
              ++ "&" ++ (QueryEscape "now" ++ "="
                         ++ QueryEscape (DecimalString.NilZero.string_of_int
                                           (Z.to_int (Z.quot (clock (os w)) 1000000))))
              ++ "&" ++ (QueryEscape "tags" ++ "="
                         ++ QueryEscape (String.concat "," (tags cl))))%string |}
    ∧ req_contentType req = "application/json"
    ∧ req_body req = body
    ∧ body = JObject [("lines", JArray jlines)]
    ∧ length jlines = length ls
    ∧ ∀ i ln, ls !! i = Some ln →
        ∃ meta,
          jlines !! i
          = Some (JObject
                    ([("timestamp", JNumber (Timestamp ln));
                      ("line", JString (Line ln));
                      ("app", JString (App ln))]
                     ++ (if String.eqb (Level ln) "" then []
                         else [("level", JString (Level ln))])
                     ++ (if String.eqb (Env ln) "" then []
                         else [("env", JString (Env ln))])
                     ++ meta))
          ∧ (Meta ln = ∅ → meta = [])
          ∧ (Meta ln ≠ ∅ →
               ∃ fields,
                 meta = [("meta", JObject fields)]
                 ∧ length fields = size (Meta ln)
                 ∧ Sorted (fun a b => String.leb a.1 b.1 = true) fields
                 ∧ ∀ k j, (k, j) ∈ fields
                          ↔ ∃ v, Meta ln !! k = Some v
                                 ∧ match v with
                                   | VNil => j = JNull
                                   | VString s => j = JString s
                                   | VInt z => j = JNumber z
                                   | VBool b => j = JBool b
                                   | VError _ => j = JObject []
                                   | VChan _ _ => False
                                   end).
Proof.
  intros Hc Hmu Hp Hne Hlt Hm Hu.
  rewrite (send_nonempty _ _ _ c force w cl ls Hc Hmu Hp (Size_nonzero ls Hne Hlt)), Hm, Hu.
  unfold Marshal in Hm. simpl in Hm.
  destruct (Marshal_all Marshal_line ls) as [err|jlines] eqn:Hj; [discriminate|].
  injection Hm as <-.
  eexists _, _, jlines.
  split; [reflexivity|]. split; [reflexivity|].
  split.
  { simpl. unfold set_RawQuery, set_User. simpl. f_equal.
    rewrite Encode_send_query, <- Join_concat. reflexivity. }
  split; [reflexivity|]. split; [reflexivity|]. split; [reflexivity|].
  apply Marshal_all_Forall2 in Hj.
  split; [symmetry; exact (Forall2_length _ _ _ Hj)|].
  intros i ln Hi.
  destruct (Forall2_lookup_l _ _ _ _ _ Hj Hi) as (j & Hji & Hln).
  destruct (Marshal_line_fields _ _ Hln) as (meta & -> & Hmeta).
  exists meta. split; [exact Hji | exact Hmeta].
Qed.

End Request.

(** ** The client registry *)

(** The first adapter built with a key creates the client, starts its
    monitor and holds the client. *)
Lemma newDNALogger_creates_client (nx : option Logger) (w : world) (k : string) :
  environ (os w) !! "PP_LOG_KEY" = Some k → k ≠ "" →
  globalClient w = None → dnaGlobalLock w = false →
  ∃ w',
    newDNALogger nx w = Ok {| next := nx; l_client := Some (length (heap w)) |} w'
    ∧ globalClient w' = Some (length (heap w))
    ∧ goroutines w' = goroutines w ++ [GoMonitorRun (length (heap w))]
    ∧ (c_payload <$> heap w' !! length (heap w)) = Some (buffer []).
Proof.
  intros Hk Hne Hg Hlock. apply String.eqb_neq in Hne.
  destruct w as [o h g gl gs ps so fw]. simpl in *. subst g gl.
  unfold newDNALogger, bind, Getenv, gets, defer, on_dnaGlobalLock, on_client, zoom,
    alloc, getAddr, modify, go, ret.
  norm. rewrite Hk. simpl. rewrite Hne. simpl. norm.
  rewrite lookup_app_r, Nat.sub_diag by lia. simpl.
  eexists. split; [reflexivity|]. simpl. split; [reflexivity|]. split; [reflexivity|].
  rewrite list_lookup_insert_eq by (rewrite length_app; simpl; lia). reflexivity.
Qed.

(** C1 (the code departs from the specification). When the API key is
    set and the process-wide client already exists, [newDNALogger] returns
    an adapter whose client is nil, not the existing client: [c] is only
    assigned in the branch that creates the client. *)
Theorem newDNALogger_existing_client_not_shared
    (nx : option Logger) (w : world) (k : string) (g : nat) :
  environ (os w) !! "PP_LOG_KEY" = Some k → k ≠ "" →
  globalClient w = Some g → dnaGlobalLock w = false →
  newDNALogger nx w = Ok {| next := nx; l_client := None |} w.
Proof.
  intros Hk Hne Hg Hlock. apply String.eqb_neq in Hne.
  destruct w as [o h gc gl gs ps so fw]. simpl in *. subst gc gl.
  unfold newDNALogger, bind, Getenv, gets, defer, on_dnaGlobalLock, zoom, ret.
  norm. rewrite Hk. simpl. rewrite Hne. reflexivity.
Qed.

Lemma newDNALogger_existing_client_not_shared_witness :
  globalClient (Sample.running []) = Some 0%nat
  ∧ newDNALogger None (Sample.running [])
    = Ok {| next := None; l_client := None |} (Sample.running []).
Proof.
  split; [reflexivity|].
  apply (newDNALogger_existing_client_not_shared None (Sample.running []) "secret" 0%nat);
    [reflexivity | discriminate | reflexivity | reflexivity].
Defined.

(** ** The adapter *)

(** C8 (the code departs from the specification). The loop of [Log]
    compares every element with the reserved words, not only those at key
    positions: in [Log("user", "msg", "x", "y")] the value ["msg"] of the
    key ["user"] selects the next key, ["x"], as the message of the record
    that is buffered. (The sequence is still forwarded unchanged.) *)
Theorem Log_reserved_word_at_value_position l c w cl ls :
  l_client l = Some c → heap w !! c = Some cl → c_payload cl = buffer ls →
  ∃ w',
    Log l [VString "user"; VString "msg"; VString "x"; VString "y"] w
    = Ok (result_of l [VString "user"; VString "msg"; VString "x"; VString "y"]) w'
    ∧ (c_payload <$> heap w' !! c)
      = Some (buffer (ls ++ [{| Timestamp := Z.quot (clock (os w)) 1000000;
                                Line := "x"; App := hostname cl; Level := "info";
                                Env := "";
                                Meta := <["x" := VString "y"]>
                                          (<["user" := VString "msg"]> ∅) |}]))
    ∧ forwarded w'
      = forwarded w ++ match next l with
                       | Some _ => [[VString "user"; VString "msg"; VString "x"; VString "y"]]
                       | None => []
                       end.
Proof.
  intros Hl Hc Hp. eexists. split.
  - eapply (Log_enabled l c w cl ls); [exact Hl | exact Hc | exact Hp | reflexivity].
  - split; [|reflexivity]. simpl.
    rewrite list_lookup_insert_eq by (now apply lookup_lt_Some in Hc). reflexivity.
Qed.

Lemma Log_reserved_word_at_value_position_witness :
  ∃ w',
    Log Sample.adapter [VString "user"; VString "msg"; VString "x"; VString "y"]
      (Sample.running [])
    = Ok None w'
    ∧ (c_payload <$> heap w' !! 0%nat)
      = Some (buffer [{| Timestamp := 1500000000123; Line := "x"; App := "web-1";
                         Level := "info"; Env := "";
                         Meta := <["x" := VString "y"]> (<["user" := VString "msg"]> ∅) |}])
    ∧ forwarded w' = [].
Proof.
  apply (Log_reserved_word_at_value_position Sample.adapter 0%nat (Sample.running [])
           (Sample.the_client []) []); reflexivity.
Defined.

(** A panic of the loop is a panic of [Log]: nothing is buffered and
    nothing is forwarded. *)
Lemma Log_panics nx c keyvals p w :
  Log_scan keyvals = inl p →
  Log {| next := nx; l_client := Some c |} keyvals w = Panic p w.
Proof. intros H. unfold Log, bind, panic. simpl. now rewrite H. Qed.

Lemma Log_range_trailing keyvals v :
  reserved v = true →
  ∀ r i a, length keyvals = (i + length r + 1)%nat →
  ∃ p, Log_range keyvals i (r ++ [v]) a = inl p.
Proof.
  intros Hv. induction r as [|x r IH]; intros i a Hlen; simpl.
  - assert (Hk : keyvals !! (i + 1)%nat = None)
      by (apply lookup_ge_None; simpl in Hlen; lia).
    unfold Log_iter. rewrite Hk. unfold reserved in Hv.
    destruct (String.eqb (Sprintf_v v) "msg"); [eauto|].
    simpl in Hv. rewrite Hv. eauto.
  - destruct (Log_iter keyvals i x a) as [p|a']; [eauto|].
    apply IH. simpl in Hlen. lia.
Qed.

Lemma Log_range_untyped keyvals k v post :
  Sprintf_v k = "msg" → (∀ s, v ≠ VString s) →
  ∀ r i a, keyvals !! (i + length r + 1)%nat = Some v →
  ∃ p, Log_range keyvals i (r ++ k :: v :: post) a = inl p.
Proof.
  intros Hk Hv. induction r as [|x r IH]; intros i a Hpos; simpl.
  - simpl in Hpos. rewrite Nat.add_0_r in Hpos.
    unfold Log_iter. rewrite Hk, Hpos. simpl.
    destruct v; eauto. now destruct (Hv s).
  - destruct (Log_iter keyvals i x a) as [p|a']; [eauto|].
    apply IH. simpl in Hpos. now replace (S i + length r + 1)%nat
      with (i + S (length r) + 1)%nat by lia.
Qed.

(** C9 (the code departs from the specification). On an enabled adapter
    [Log] panics, before it buffers or forwards anything, whenever the last
    element prints as ["msg"] or ["level"] (the element after it is read
    without a bounds check) and whenever the element after a ["msg"] is not
    a string (the type assertion is unchecked): the call does not return
    normally for these sequences. *)
Theorem Log_panics_on_trailing_or_untyped_msg (nx : option Logger) (c : nat) (w : world) :
  (∀ pre v, reserved v = true →
     ∃ p, Log {| next := nx; l_client := Some c |} (pre ++ [v]) w = Panic p w)
  ∧ (∀ pre k v post, Sprintf_v k = "msg" → (∀ s, v ≠ VString s) →
     ∃ p, Log {| next := nx; l_client := Some c |} (pre ++ k :: v :: post) w = Panic p w).
Proof.
  split.
  - intros pre v Hv.
    destruct (Log_range_trailing (pre ++ [v]) v Hv pre 0 {| msg := ""; lvl := "info"; kv := ∅ |})
      as [p Hp]; [rewrite length_app; simpl; lia|].
    exists p. now apply Log_panics.
  - intros pre k v post Hk Hv.
    destruct (Log_range_untyped (pre ++ k :: v :: post) k v post Hk Hv pre 0
                {| msg := ""; lvl := "info"; kv := ∅ |}) as [p Hp].
    + rewrite lookup_app_r by lia.
      now replace (0 + length pre + 1 - length pre)%nat with 1%nat by lia.
    + exists p. now apply Log_panics.
Qed.

Lemma Log_panics_on_trailing_or_untyped_msg_witness :
  (∃ p, Log Sample.adapter [VString "msg"] (Sample.running []) = Panic p (Sample.running []))
  ∧ (∃ p, Log Sample.adapter [VString "user"; VString "level"] (Sample.running [])
          = Panic p (Sample.running []))
  ∧ (∃ p, Log Sample.adapter [VString "msg"; VInt 5] (Sample.running [])
          = Panic p (Sample.running [])).
Proof.
  pose proof (Log_panics_on_trailing_or_untyped_msg None 0%nat (Sample.running []))
    as [Hlast Htype].
  split; [|split].
  - apply (Hlast [] (VString "msg")). reflexivity.
  - apply (Hlast [VString "user"] (VString "level")). reflexivity.
  - apply (Htype [] (VString "msg") (VInt 5) []); [reflexivity | discriminate].
Defined.

(** ** The statements at concrete inputs *)

Lemma send_force_is_ignored_witness :
  send Sample.parse Sample.escape Sample.accepted 0 true (Sample.running [])
  = Ok tt (Sample.running [])
  ∧ run_step Sample.parse Sample.escape Sample.accepted 0 CaseTimer (Sample.running [])
    = Ok true (Sample.running []).
Proof.
  apply (proj2 (send_force_is_ignored Sample.parse Sample.escape Sample.accepted)
           0%nat (Sample.running []) (Sample.the_client []) 0%nat);
    reflexivity.
Defined.

Lemma send_transport_failure_flushes_witness :
  ∃ w',
    send Sample.parse Sample.escape Sample.unreachable 0 false
      (Sample.running [Sample.hello]) = Ok tt w'
    ∧ heap w' !! 0%nat = Some (Sample.the_client [])
    ∧ posted w'
      = [send_request Sample.escape (Sample.the_client [Sample.hello])
           Sample.endpoint Sample.now (Sample.body 1)]
    ∧ goroutines w' = [GoMonitorRun 0].
Proof.
  apply (send_transport_failure_flushes Sample.parse Sample.escape Sample.unreachable
           0%nat false (Sample.running [Sample.hello]) (Sample.the_client [Sample.hello])
           [Sample.hello] (Sample.body 1) Sample.endpoint "dial tcp: connection refused");
    first [ reflexivity | discriminate ].
Defined.

Lemma send_marshal_failure_flushes_witness :
  ∃ w',
    send Sample.parse Sample.escape Sample.accepted 0 false
      (Sample.running [Sample.unmarshalable]) = Ok tt w'
    ∧ heap w' !! 0%nat = Some (Sample.the_client [])
    ∧ posted w' = []
    ∧ stdout w' = ["Error marshaling logdna payload json: unsupported type: chan int"].
Proof.
  apply (send_marshal_failure_flushes Sample.parse Sample.escape Sample.accepted
           0%nat false (Sample.running [Sample.unmarshalable])
           (Sample.the_client [Sample.unmarshalable]) [Sample.unmarshalable]
           "json: unsupported type: chan int");
    first [ reflexivity | discriminate ].
Defined.

(** C2, the statement of the specification fails: serialization of this
    buffer fails, and [send] returns with the buffer empty; the record is
    not retained. *)
Lemma send_marshal_failure_retains_counterexample :
  Marshal (buffer [Sample.unmarshalable]) = inl "json: unsupported type: chan int"
  ∧ (c_payload <$> heap (Sample.running [Sample.unmarshalable]) !! 0%nat)
    = Some (buffer [Sample.unmarshalable])
  ∧ ∃ w',
      send Sample.parse Sample.escape Sample.accepted 0 false
        (Sample.running [Sample.unmarshalable]) = Ok tt w'
      ∧ (c_payload <$> heap w' !! 0%nat) = Some (buffer [])
      ∧ (c_payload <$> heap w' !! 0%nat) ≠ Some (buffer [Sample.unmarshalable]).
Proof.
  split; [reflexivity|]. split; [reflexivity|].
  eexists. split; [reflexivity|]. split; [reflexivity | discriminate].
Qed.

Lemma send_posts_described_request_witness :
  ∃ w',
    send Sample.parse Sample.escape Sample.accepted 0 false
      (Sample.running [Sample.hello]) = Ok tt w'
    ∧ posted w'
      = [{| req_url :=
              {| Scheme := "https"; Host := "logs.logdna.com"; Path := "/logs/ingest";
                 User := Some {| username := "secret"; password := None |};
                 RawQuery :=
                   "hostname=web-1&ip=10.0.0.7&mac=02:42&now=1500000000123&tags=a,b" |};
            req_contentType := "application/json";
            req_body :=
              JObject
                [("lines",
                  JArray
                    [JObject [("timestamp", JNumber 1500000000123);
                              ("line", JString "hello");
                              ("app", JString "web-1");
                              ("level", JString "info");
                              ("meta", JObject [("user", JString "ann")])]])] |}].
Proof.
  destruct (send_posts_described_request Sample.parse Sample.escape Sample.accepted
              0%nat false (Sample.running [Sample.hello]) (Sample.the_client [Sample.hello])
              [Sample.hello] (Sample.body 1) Sample.endpoint
              eq_refl eq_refl eq_refl ltac:(discriminate) ltac:(reflexivity)
              eq_refl eq_refl)
    as (w' & [ru rc rb] & jlines & Hs & Hp & Hurl & Hct & Hb & _).
  exists w'. split; [exact Hs|]. rewrite Hp. simpl in Hurl, Hct, Hb.
  rewrite Hurl, Hct, Hb. reflexivity.
Defined.

Lemma newDNALogger_without_key_is_noop_witness :
  ∃ l,
    newDNALogger None (Sample.boot Sample.key_unset) = Ok l (Sample.boot Sample.key_unset)
    ∧ l = {| next := None; l_client := None |}
    ∧ (∀ keyvals w', ∃ w'',
         Log l keyvals w' = Ok (result_of l keyvals) w''
         ∧ heap w'' = heap w'
         ∧ goroutines w'' = goroutines w'
         ∧ posted w'' = posted w'
         ∧ stdout w'' = stdout w'
         ∧ globalClient w'' = globalClient w')
    ∧ (∀ w', Close Sample.parse Sample.escape Sample.accepted l w' = Ok l w').
Proof.
  apply (newDNALogger_without_key_is_noop Sample.parse Sample.escape Sample.accepted
           None (Sample.boot Sample.key_unset)).
  reflexivity.
Defined.

(** C3, the statement of the specification fails: the 101st append onto
    an unflushed buffer returns [true] like the 100th, and 150 calls of
    [Log] with no delivery run in between start 51 deliveries, not one. *)
Lemma Write_after_threshold_counterexample :
  (∃ rs,
      Writes (repeat Sample.hello 101) (buffer []) = Ok rs (buffer (repeat Sample.hello 101))
      ∧ rs !! 98%nat = Some false
      ∧ rs !! 99%nat = Some true
      ∧ rs !! 100%nat = Some true)
  ∧ (∃ w',
        Logs Sample.adapter (repeat Sample.keyvals 150) (Sample.running []) = Ok tt w'
        ∧ goroutines w' = GoMonitorRun 0 :: repeat (GoSend 0 false) 51
        ∧ (c_payload <$> heap w' !! 0%nat) = Some (buffer (repeat Sample.hello 150))).
Proof.
  split.
  - eexists. split; [vm_compute; reflexivity|]. repeat split.
  - eexists. split; [vm_compute; reflexivity|]. split; vm_compute; reflexivity.
Qed.

Lemma appends_ready_from_threshold_on_witness :
  ∃ w1 w2 w3,
    Logs Sample.adapter (repeat Sample.keyvals 100) (Sample.running []) = Ok tt w1
    ∧ goroutines w1 = [GoMonitorRun 0; GoSend 0 false]
    ∧ posted w1 = []
    ∧ schedule Sample.parse Sample.escape Sample.accepted 1 CaseTimer w1 = Ok tt w2
    ∧ goroutines w2 = [GoMonitorRun 0]
    ∧ posted w2
      = [send_request Sample.escape (Sample.the_client []) Sample.endpoint Sample.now
           (Sample.body 100)]
    ∧ Logs Sample.adapter (repeat Sample.keyvals 50) w2 = Ok tt w3
    ∧ goroutines w3 = [GoMonitorRun 0]
    ∧ posted w3 = posted w2
    ∧ heap w3 !! 0%nat = Some (Sample.the_client (repeat Sample.hello 50)).
Proof.
  apply (proj2 (appends_ready_from_threshold_on Sample.parse Sample.escape Sample.accepted)
           Sample.adapter 0%nat (Sample.running []) (Sample.the_client [])
           (repeat Sample.keyvals 100) (repeat Sample.keyvals 50)
           (repeat Sample.hello 100) (repeat Sample.hello 50)
           (Sample.body 100) Sample.endpoint CaseTimer);
    vm_compute; reflexivity.
Defined.

(** * Further properties *)

(** ** package strings: splitting and joining *)

Lemma Split_nonempty s sep : Split s sep ≠ [].
Proof. destruct s as [|c s]; simpl; [discriminate|]. destruct (Ascii.eqb c sep); [discriminate|]. destruct (Split s sep); discriminate. Qed.

Lemma Join_cons e rest sep :
  rest ≠ [] → Join (e :: rest) sep = (e ++ sep ++ Join rest sep)%string.
Proof. destruct rest; [congruence | reflexivity]. Qed.

Lemma Join_Split s sep : Join (Split s sep) (String sep "") = s.
Proof.
  induction s as [|c s IH]; [reflexivity|]. simpl.
  destruct (Ascii.eqb_spec c sep) as [->|Hne].
  - rewrite Join_cons by apply Split_nonempty. simpl. now rewrite IH.
  - pose proof (Split_nonempty s sep) as Hs.
    destruct (Split s sep) as [|h t]; [congruence|].
    destruct t as [|h' t].
    + simpl in *. now rewrite IH.
    + change (Join (String c h :: h' :: t) (String sep ""))
        with (String c (Join (h :: h' :: t) (String sep ""))).
      now rewrite IH.
Qed.

Lemma Split_without_sep s sep : occurs sep s = false → Split s sep = [s].
Proof.
  induction s as [|c s IH]; [reflexivity|]. simpl. intros H.
  apply orb_false_iff in H as [Hc Hs]. rewrite Hc, (IH Hs). reflexivity.
Qed.

Lemma hd_Split_without_sep s sep : occurs sep (List.hd "" (Split s sep)) = false.
Proof.
  induction s as [|c s IH]; [reflexivity|]. simpl.
  destruct (Ascii.eqb c sep) eqn:Hc; [reflexivity|].
  destruct (Split s sep) as [|h t]; simpl in *; now rewrite Hc.
Qed.

(** ** Machine identity *)

Lemma getAddr_addrs_none hw addrs :
  Forall (fun a => usable a = false) addrs → getAddr_addrs hw addrs = None.
Proof.
  induction 1 as [|a addrs Ha _ IH]; [reflexivity|]. simpl.
  destruct a as [n|]; [|exact IH]. simpl in Ha.
  destruct (IsLoopback n); simpl in *; [exact IH|].
  destruct (To4 n); [discriminate | exact IH].
Qed.

Lemma getAddr_addrs_first hw apre n ip4 apost :
  Forall (fun a => usable a = false) apre →
  IsLoopback n = false → To4 n = Some ip4 →
  getAddr_addrs hw (apre ++ AddrIPNet n :: apost) = Some (List.hd "" (Split ip4 "/"), hw).
Proof.
  intros Hpre Hl H4. induction Hpre as [|a apre Ha _ IH]; simpl.
  - now rewrite Hl, H4.
  - destruct a as [m|]; [|exact IH]. simpl in Ha.
    destruct (IsLoopback m); simpl in *; [exact IH|].
    destruct (To4 m); [discriminate | exact IH].
Qed.

Lemma existsb_usable_false addrs :
  existsb usable addrs = false → Forall (fun a => usable a = false) addrs.
Proof.
  induction addrs as [|a addrs IH]; simpl; [constructor|].
  intros H. apply orb_false_iff in H as [Ha Hr]. constructor; auto.
Qed.

Lemma getAddr_interfaces_skip pre rest :
  Forall (fun i => reportable i = false) pre →
  getAddr_interfaces (pre ++ rest) = getAddr_interfaces rest.
Proof.
  induction 1 as [|i pre Hi _ IH]; [reflexivity|]. simpl.
  unfold reportable in Hi. destruct (HardwareAddr i); [exact IH|].
  now rewrite (getAddr_addrs_none _ _ (existsb_usable_false _ Hi)).
Qed.

(** X1. [getAddr] reports the first interface, in the order of
    [net.Interfaces], that has a hardware address and an address that is an
    IP network, not loopback, with an IPv4 form; of that interface it takes
    the first such address. The IP it returns contains no ["/"]. Interfaces
    without hardware address are passed over even when they have such an
    address. *)
Theorem getAddr_reports_first_usable_interface pre i post apre n ip4 apost :
  Forall (fun i => reportable i = false) pre →
  HardwareAddr i ≠ [] →
  Addrs i = apre ++ AddrIPNet n :: apost →
  Forall (fun a => usable a = false) apre →
  IsLoopback n = false → To4 n = Some ip4 →
  getAddr_interfaces (pre ++ i :: post)
  = (List.hd "" (Split ip4 "/"), HardwareAddr_String i)
  ∧ occurs "/" (getAddr_interfaces (pre ++ i :: post)).1 = false
  ∧ (occurs "/" ip4 = false → (getAddr_interfaces (pre ++ i :: post)).1 = ip4).
Proof.
  intros Hpre Hhw Ha Hapre Hl H4.
  assert (E : getAddr_interfaces (pre ++ i :: post)
              = (List.hd "" (Split ip4 "/"), HardwareAddr_String i)).
  { rewrite (getAddr_interfaces_skip _ _ Hpre). simpl.
    destruct (HardwareAddr i); [congruence|].
    now rewrite Ha, (getAddr_addrs_first _ _ _ _ _ Hapre Hl H4). }
  rewrite E. split; [reflexivity|]. split; simpl.
  - apply hd_Split_without_sep.
  - intros Hno. now rewrite (Split_without_sep _ _ Hno).
Qed.

(** X2. When no interface has both a hardware address and a usable
    address, or [net.Interfaces] fails, [getAddr] returns two empty
    strings. *)
Theorem getAddr_without_usable_interface (w : world) :
  match interfaces (os w) with
  | Some ifs => Forall (fun i => reportable i = false) ifs
  | None => True
  end →
  getAddr w = Ok ("", "") w.
Proof.
  unfold getAddr, gets. destruct (interfaces (os w)) as [ifs|]; [|reflexivity].
  intros H. rewrite <- (app_nil_r ifs), (getAddr_interfaces_skip _ _ H). reflexivity.
Qed.

(** ** The client registry: the first adapter *)

Lemma newDNALogger_first (nx : option Logger) (w : world) (k : string) :
  environ (os w) !! "PP_LOG_KEY" = Some k → k ≠ "" →
  globalClient w = None → dnaGlobalLock w = false →
  let getenv key := default "" (environ (os w) !! key) in
  let addr := match interfaces (os w) with
              | Some ifs => getAddr_interfaces ifs
              | None => ("", "")
              end in
  let self := length (heap w) in
  let cl :=
    {| apikey := k;
       hostname := if String.eqb (getenv "PP_HOSTNAME") "" then "hostname.not.provided"
                   else getenv "PP_HOSTNAME";
       mac := addr.2; ip := addr.1;
       tags := if negb (String.eqb (getenv "PP_LOG_TAGS") "")
               then Split (getenv "PP_LOG_TAGS") "," else [];
       url := if negb (String.eqb (getenv "PP_LOG_URL") "") then getenv "PP_LOG_URL"
              else logdnaBaseURL;
       c_monitor := Some {| m_client := self; done := 0 |};
       c_mu := false;
       c_payload := buffer [] |} in
  newDNALogger nx w
  = Ok {| next := nx; l_client := Some self |}
      {| os := os w; heap := heap w ++ [cl]; globalClient := Some self;
         dnaGlobalLock := false; goroutines := goroutines w ++ [GoMonitorRun self];
         posted := posted w; stdout := stdout w; forwarded := forwarded w |}.
Proof.
  intros Hk Hne Hg Hlock. apply String.eqb_neq in Hne.
  destruct w as [o h g gl gs ps so fw]. simpl in *. subst g gl.
  unfold newDNALogger, bind, Getenv, gets, defer, on_dnaGlobalLock, on_client, zoom,
    alloc, getAddr, modify, go, ret.
  norm. rewrite Hk. simpl. rewrite Hne. simpl. norm.
  rewrite lookup_app_r, Nat.sub_diag by lia. simpl. norm.
  rewrite insert_app_r_alt, Nat.sub_diag by lia. reflexivity.
Qed.

(** X3. The first adapter built with an API key creates the client from
    the environment: the key, the host name (default
    ["hostname.not.provided"]), the endpoint (default the LogDNA ingestion
    URL), the machine identity found by [getAddr], an empty unlocked
    buffer, and a monitor whose goroutine is started. It holds the client
    it created, which is the process-wide client from then on. *)
Theorem newDNALogger_configures_client (nx : option Logger) (w : world) (k : string) :
  environ (os w) !! "PP_LOG_KEY" = Some k → k ≠ "" →
  globalClient w = None → dnaGlobalLock w = false →
  ∃ l w' cl,
    newDNALogger nx w = Ok l w'
    ∧ next l = nx ∧ l_client l = Some (length (heap w))
    ∧ globalClient w' = Some (length (heap w))
    ∧ heap w' = heap w ++ [cl]
    ∧ goroutines w' = goroutines w ++ [GoMonitorRun (length (heap w))]
    ∧ dnaGlobalLock w' = false
    ∧ posted w' = posted w
    ∧ apikey cl = k
    ∧ (environ (os w) !! "PP_HOSTNAME" = None ∨ environ (os w) !! "PP_HOSTNAME" = Some ""
       → hostname cl = "hostname.not.provided")
    ∧ (∀ h, environ (os w) !! "PP_HOSTNAME" = Some h → h ≠ "" → hostname cl = h)
    ∧ (environ (os w) !! "PP_LOG_URL" = None ∨ environ (os w) !! "PP_LOG_URL" = Some ""
       → url cl = logdnaBaseURL)
    ∧ (∀ u, environ (os w) !! "PP_LOG_URL" = Some u → u ≠ "" → url cl = u)
    ∧ getAddr w = Ok (ip cl, mac cl) w
    ∧ c_payload cl = buffer [] ∧ c_mu cl = false
    ∧ c_monitor cl = Some {| m_client := length (heap w); done := 0 |}.
Proof.
  intros Hk Hne Hg Hlock.
  eexists _, _, _. split; [apply (newDNALogger_first nx w k Hk Hne Hg Hlock)|].
  repeat (split; [reflexivity|]). simpl.
  split; [intros [-> | ->]; reflexivity|].
  split; [intros h -> Hh; apply String.eqb_neq in Hh; simpl; now rewrite Hh|].
  split; [intros [-> | ->]; reflexivity|].
  split; [intros u -> Hu; apply String.eqb_neq in Hu; simpl; now rewrite Hu|].
  split; [|repeat split].
  unfold getAddr, gets. now destruct (interfaces (os w)) as [ifs|]; [destruct (getAddr_interfaces ifs)|].
Qed.

(** X4. The tags survive the round trip through the client: the
    configured tags are the pieces of [PP_LOG_TAGS] between commas, and
    the [tags] query parameter [send] builds by joining them with commas
    is the value of [PP_LOG_TAGS] again (empty when it is unset). *)
Theorem tags_parameter_is_PP_LOG_TAGS (nx : option Logger) (w : world) (k : string) :
  environ (os w) !! "PP_LOG_KEY" = Some k → k ≠ "" →
  globalClient w = None → dnaGlobalLock w = false →
  ∃ l w' cl,
    newDNALogger nx w = Ok l w'
    ∧ heap w' !! length (heap w) = Some cl
    ∧ Join (tags cl) "," = default "" (environ (os w) !! "PP_LOG_TAGS")
    ∧ ∀ now, send_query cl now !! "tags"
             = Some [default "" (environ (os w) !! "PP_LOG_TAGS")].
Proof.
  intros Hk Hne Hg Hlock.
  eexists _, _, _. split; [apply (newDNALogger_first nx w k Hk Hne Hg Hlock)|].
  split; [simpl; now rewrite lookup_app_r, Nat.sub_diag by lia|].
  assert (E : ∀ t, Join (if negb (String.eqb t "") then Split t "," else []) "," = t).
  { intros t. destruct (String.eqb_spec t "") as [->|_]; [reflexivity|]. apply Join_Split. }
  split; [apply E|]. intros now. simpl tags.
  unfold send_query, Values_Set. rewrite lookup_insert_eq. simpl tags. now rewrite E.
Qed.

(** ** Serialization *)







(** ** The loop of [Log] *)

Lemma Log_iter_reserved_key keyvals i val a a' r :
  r = "msg" ∨ r = "level" →
  Log_iter keyvals i val a = inr a' → kv a !! r = None → kv a' !! r = None.
Proof.
  intros Hr. unfold Log_iter.
  destruct (String.eqb_spec (Sprintf_v val) "msg") as [_|Hm].
  { destruct (keyvals !! (i + 1)%nat) as [[]|]; intros H; try discriminate.
    now injection H as <-. }
  destruct (String.eqb_spec (Sprintf_v val) "level") as [_|Hl].
  { destruct (keyvals !! (i + 1)%nat); intros H; try discriminate. now injection H as <-. }
  destruct (i mod 2 =? 0)%nat.
  - destruct (keyvals !! (i + 1)%nat); intros H; try discriminate.
    injection H as <-. simpl. intros Hk.
    rewrite lookup_insert_ne; [exact Hk|]. destruct Hr; congruence.
  - intros H. now injection H as <-.
Qed.

Lemma Log_range_reserved_key keyvals r :
  r = "msg" ∨ r = "level" →
  ∀ rest i a a', Log_range keyvals i rest a = inr a' → kv a !! r = None → kv a' !! r = None.
Proof.
  intros Hr. induction rest as [|val rest IH]; simpl; intros i a a' H Hk.
  - now injection H as <-.
  - destruct (Log_iter keyvals i val a) as [p|a1] eqn:Hi; [discriminate|].
    apply (IH _ _ _ H). now apply (Log_iter_reserved_key _ _ _ _ _ _ Hr Hi).
Qed.

Lemma Log_scan_panic l c keyvals p w :
  l_client l = Some c → Log_scan keyvals = inl p → Log l keyvals w = Panic p w.
Proof. intros Hl H. unfold Log, bind, panic. now rewrite Hl, H. Qed.

(** X6. On an enabled adapter [Log] either panics and leaves everything
    as it was (nothing buffered, nothing forwarded), or returns what the
    next link returns after appending exactly one record: stamped with
    the current time in milliseconds and the client's host name, with no
    environment tag, with metadata that never holds the keys "msg" or
    "level"; it starts a delivery exactly when the buffer has reached 100
    records, posts nothing itself and forwards the sequence unchanged. *)
Theorem Log_appends_one_record_or_panics l c w cl ls keyvals :
  l_client l = Some c → heap w !! c = Some cl → c_payload cl = buffer ls →
  (∃ p, Log l keyvals w = Panic p w)
  ∨ (∃ ln w',
       Log l keyvals w = Ok (result_of l keyvals) w'
       ∧ (c_payload <$> heap w' !! c) = Some (buffer (ls ++ [ln]))
       ∧ Timestamp ln = Z.quot (clock (os w)) 1000000
       ∧ App ln = hostname cl
       ∧ Env ln = ""
       ∧ Meta ln !! "msg" = None ∧ Meta ln !! "level" = None
       ∧ goroutines w'
         = goroutines w
           ++ (if (100 <=? Z.of_nat (length ls) + 1)%Z then [GoSend c false] else [])
       ∧ posted w' = posted w
       ∧ forwarded w'
         = forwarded w ++ match next l with Some _ => [keyvals] | None => [] end).
Proof.
  intros Hl Hc Hp.
  destruct (Log_scan keyvals) as [p|a] eqn:Hs.
  { left. exists p. now apply (Log_scan_panic l c). }
  right.
  assert (Hr : record_of (Z.quot (clock (os w)) 1000000) (hostname cl) keyvals
               = Some {| Timestamp := Z.quot (clock (os w)) 1000000; App := hostname cl;
                         Line := msg a; Level := lvl a; Env := ""; Meta := kv a |})
    by (unfold record_of; now rewrite Hs).
  eexists _, _. split; [apply (Log_enabled l c w cl ls keyvals _ Hl Hc Hp Hr)|].
  split.
  { simpl. rewrite list_lookup_insert_eq by (now apply lookup_lt_Some in Hc). reflexivity. }
  do 3 (split; [reflexivity|]).
  split; [|split].
  - apply (Log_range_reserved_key keyvals "msg" (or_introl eq_refl) _ _ _ _ Hs). reflexivity.
  - apply (Log_range_reserved_key keyvals "level" (or_intror eq_refl) _ _ _ _ Hs). reflexivity.
  - split; [|split; reflexivity]. simpl. rewrite Hp. simpl. f_equal.
    unfold dispatched, ready, maxNumLines. simpl.
    replace (Z.of_nat (length ls + 1)) with (Z.of_nat (length ls) + 1)%Z by lia.
    now rewrite app_nil_r.
Qed.

Lemma Log_range_last_at_even keyvals v :
  ∀ r i a, length keyvals = (i + length r + 1)%nat →
  ((i + length r) mod 2 = 0)%nat →
  ∃ p, Log_range keyvals i (r ++ [v]) a = inl p.
Proof.
  induction r as [|x r IH]; intros i a Hlen Hev; cbn [length] in Hlen, Hev; simpl.
  - assert (Hk : keyvals !! (i + 1)%nat = None) by (apply lookup_ge_None; lia).
    rewrite Nat.add_0_r in Hev.
    unfold Log_iter. rewrite Hk, Hev.
    destruct (String.eqb (Sprintf_v v) "msg"); [eauto|].
    destruct (String.eqb (Sprintf_v v) "level"); eauto.
  - destruct (Log_iter keyvals i x a) as [p|a']; [eauto|].
    apply IH; [lia|].
    now replace (S i + length r)%nat with (i + S (length r))%nat by lia.
Qed.

(** X7. On an enabled adapter [Log] panics on every sequence with an odd
    number of elements: the last element stands at an even index and the
    element after it is read whatever it prints as. *)
Theorem Log_panics_on_odd_length l c w keyvals :
  l_client l = Some c → Nat.odd (length keyvals) = true →
  ∃ p, Log l keyvals w = Panic p w.
Proof.
  intros Hl Hodd.
  destruct (decide (keyvals = [])) as [->|Hne]; [discriminate|].
  rewrite (app_removelast_last VNil Hne) in *.
  set (r := removelast keyvals) in *. set (v := List.last keyvals VNil) in *.
  rewrite length_app, Nat.add_1_r, Nat.odd_succ in Hodd.
  destruct (Log_range_last_at_even (r ++ [v]) v r 0 {| msg := ""; lvl := "info"; kv := ∅ |})
    as [p Hp].
  - rewrite length_app. simpl. lia.
  - apply Nat.even_spec in Hodd as [k Hk].
    now rewrite Nat.add_0_l, Hk, Nat.mul_comm, Nat.Div0.mod_mul.
  - exists p. now apply (Log_scan_panic l c).
Qed.

Lemma scan_pairs_well_formed pairs :
  Forall (fun p => well_formed p = true) pairs → ∀ a, ∃ a', scan_pairs pairs a = inr a'.
Proof.
  induction 1 as [|[k v] pairs Hp _ IH]; intros a; simpl; [eauto|].
  unfold well_formed in Hp. simpl in Hp. apply andb_true_iff in Hp as [_ Hp].
  destruct (String.eqb (Sprintf_v k) "msg").
  - destruct v; try discriminate. apply IH.
  - destruct (String.eqb (Sprintf_v k) "level"); apply IH.
Qed.

Lemma scan_pairs_defaults pairs :
  Forall (fun p => reserved p.1 = false) pairs →
  ∀ a a', scan_pairs pairs a = inr a' → msg a' = msg a ∧ lvl a' = lvl a.
Proof.
  induction 1 as [|[k v] pairs Hp _ IH]; intros a a' H; simpl in H.
  - now injection H as <-.
  - unfold reserved in Hp. simpl in Hp. apply orb_false_iff in Hp as [H1 H2].
    rewrite H1, H2 in H. now apply IH in H.
Qed.

(** X8. On an enabled adapter [Log] returns normally on every sequence of
    key/value pairs in which no value prints as "msg" or "level" and the
    value of every "msg" key is a string: it appends one record and
    returns what the next link returns. When no key prints as "msg" or
    "level" either, the record has the empty message and the level
    "info". *)
Theorem Log_returns_on_well_formed_pairs l c w cl ls pairs :
  l_client l = Some c → heap w !! c = Some cl → c_payload cl = buffer ls →
  Forall (fun p => well_formed p = true) pairs →
  ∃ ln w',
    Log l (alternate pairs) w = Ok (result_of l (alternate pairs)) w'
    ∧ (c_payload <$> heap w' !! c) = Some (buffer (ls ++ [ln]))
    ∧ (Forall (fun p => reserved p.1 = false) pairs → Line ln = "" ∧ Level ln = "info").
Proof.
  intros Hl Hc Hp Hwf.
  assert (Hres : Forall (fun p : value * value => reserved p.2 = false) pairs).
  { eapply Forall_impl; [exact Hwf|]. intros p H. unfold well_formed in H.
    apply andb_true_iff in H as [H _]. now apply negb_true_iff in H. }
  destruct (scan_pairs_well_formed pairs Hwf {| msg := ""; lvl := "info"; kv := ∅ |})
    as [a Ha].
  pose proof (Log_scan_pairs pairs Hres) as Hs. rewrite Ha in Hs.
  assert (Hr : record_of (Z.quot (clock (os w)) 1000000) (hostname cl) (alternate pairs)
               = Some {| Timestamp := Z.quot (clock (os w)) 1000000; App := hostname cl;
                         Line := msg a; Level := lvl a; Env := ""; Meta := kv a |})
    by (unfold record_of; now rewrite Hs).
  eexists _, _. split; [apply (Log_enabled l c w cl ls _ _ Hl Hc Hp Hr)|].
  split.
  { simpl. rewrite list_lookup_insert_eq by (now apply lookup_lt_Some in Hc). reflexivity. }
  intros Hkeys. simpl. now apply (scan_pairs_defaults pairs Hkeys _ _ Ha).
Qed.

(** ** Buffering without delivery *)

Lemma dispatched_count c n k :
  dispatched c n k = repeat (GoSend c false) (k - (99 - n)).
Proof.
  destruct (Nat.le_gt_cases 99 n) as [Hn|Hn].
  { rewrite dispatched_above by lia. now replace (k - (99 - n))%nat with k by lia. }
  destruct (Nat.le_gt_cases k (99 - n)) as [Hle|Hgt].
  - rewrite dispatched_below by lia. now replace (k - (99 - n))%nat with 0%nat by lia.
  - replace k with ((99 - n) + (k - (99 - n)))%nat at 1 by lia.
    rewrite dispatched_app, dispatched_below, dispatched_above by lia. reflexivity.
Qed.

(** X9. Calls of [Log] that do not panic never drop a record and never
    post: after [k] calls on a buffer of [n] records that is not flushed
    in between, the buffer holds the [n] records followed by the [k] new
    ones in call order (no cap at 100), and the number of deliveries
    started is the number of calls that found the buffer at 99 records or
    more, [k - (99 - n)]; in particular none while fewer than 100 records
    are buffered. *)
Theorem Logs_buffer_all_and_count_deliveries l c w cl ls kvss lines :
  l_client l = Some c → heap w !! c = Some cl → c_payload cl = buffer ls →
  mapM (record_of (Z.quot (clock (os w)) 1000000) (hostname cl)) kvss = Some lines →
  ∃ w',
    Logs l kvss w = Ok tt w'
    ∧ (c_payload <$> heap w' !! c) = Some (buffer (ls ++ lines))
    ∧ length lines = length kvss
    ∧ goroutines w'
      = goroutines w ++ repeat (GoSend c false) (length kvss - (99 - length ls))
    ∧ ((length ls + length kvss < 100)%nat → goroutines w' = goroutines w)
    ∧ posted w' = posted w
    ∧ stdout w' = stdout w.
Proof.
  intros Hl Hc Hp Hm.
  eexists. split; [apply (Logs_enabled l c kvss w cl ls lines Hl Hc Hp Hm)|].
  split.
  { simpl. rewrite list_lookup_insert_eq by (now apply lookup_lt_Some in Hc). reflexivity. }
  split; [symmetry; apply (length_mapM _ _ _ Hm)|].
  simpl. rewrite Hp. simpl. rewrite dispatched_count.
  split; [reflexivity|]. split; [|split; reflexivity].
  intros Hlt. replace (length kvss - (99 - length ls))%nat with 0%nat by lia.
  apply app_nil_r.
Qed.

(** ** Delivery: the other outcomes *)

Section MoreDelivery.

Variable url_Parse : string → option URL.
Variable QueryEscape : string → string.
Variable http_Post : request → post_result.

#[local] Abbreviation send' := (send url_Parse QueryEscape http_Post).
#[local] Abbreviation send_request' := (send_request QueryEscape).

(** X10. When the request is answered, [send] prints the response body
    (or the error of reading it) if the status is 400 or more and prints
    nothing otherwise; either way it returns normally, exactly one request
    was posted and the buffer is empty: a rejected batch is not kept. *)
Theorem send_answered_flushes_and_reports_rejection
    c force w cl ls body u status rb :
  heap w !! c = Some cl → c_mu cl = false → c_payload cl = buffer ls →
  ls ≠ [] → (Z.of_nat (length ls) < 2 ^ 32)%Z →
  Marshal (buffer ls) = inr body →
  url_Parse (url cl) = Some u →
  http_Post (send_request' cl u (Z.quot (clock (os w)) 1000000) body)
  = PostResponse status rb →
  ∃ w',
    send' c force w = Ok tt w'
    ∧ heap w' !! c = Some (set_payload (buffer []) cl)
    ∧ posted w' = posted w ++ [send_request' cl u (Z.quot (clock (os w)) 1000000) body]
    ∧ ((status < 400)%Z → stdout w' = stdout w)
    ∧ ((400 ≤ status)%Z →
         ∃ text, stdout w' = stdout w ++ [text]
                 ∧ match rb with
                   | inr b => text = ("error making logdna injest request " ++ b)%string
                   | inl err => text = ("error reading logdna response body " ++ err)%string
                   end).
Proof.
  intros Hc Hmu Hp Hne Hlt Hm Hu Hr.
  rewrite (send_nonempty _ _ _ c force w cl ls Hc Hmu Hp (Size_nonzero ls Hne Hlt)), Hm, Hu.
  cbv zeta. rewrite Hr. eexists. split; [reflexivity|].
  split; [now apply lookup_delivered|]. split; [reflexivity|]. simpl.
  destruct (Z.leb_spec 400 status) as [Hge|Hlt4].
  - split; [lia|]. intros _. destruct rb; eexists; split; reflexivity.
  - split; [intros _; apply app_nil_r | lia].
Qed.

(** X11. When [send] finds a non-empty buffer (of fewer than 2^32
    records) that serializes and the endpoint does not parse, it panics
    on the nil URL ([url.Parse]'s error is ignored), but only after its
    deferred calls ran: nothing is posted or printed, the batch is
    dropped all the same, and both locks are released. *)
Theorem send_unparsable_endpoint_panics_after_flush c force w cl ls body :
  heap w !! c = Some cl → c_mu cl = false → c_payload cl = buffer ls →
  ls ≠ [] → (Z.of_nat (length ls) < 2 ^ 32)%Z →
  Marshal (buffer ls) = inr body →
  url_Parse (url cl) = None →
  ∃ w',
    send' c force w = Panic nil_dereference w'
    ∧ heap w' !! c = Some (set_payload (buffer []) cl)
    ∧ c_mu (set_payload (buffer []) cl) = false
    ∧ mu (c_payload (set_payload (buffer []) cl)) = RWMutex_free
    ∧ posted w' = posted w
    ∧ stdout w' = stdout w.
Proof.
  intros Hc Hmu Hp Hne Hlt Hm Hu.
  rewrite (send_nonempty _ _ _ c force w cl ls Hc Hmu Hp (Size_nonzero ls Hne Hlt)), Hm, Hu.
  eexists. split; [reflexivity|]. split; [now apply lookup_delivered|].
  split; [exact Hmu|]. split; [reflexivity|]. simpl. split; apply app_nil_r.
Qed.

(** What [send] does to a client nobody holds a lock of, in one
    statement: it returns or panics, the client keeps its configuration
    and its locks are free, its buffer is untouched or empty, the other
    clients, the goroutines and the registry are untouched, and at most
    one request was posted. *)
Lemma send_idle c force w cl ls :
  heap w !! c = Some cl → c_mu cl = false → c_payload cl = buffer ls →
  ∃ w' ls' reqs out,
    (send' c force w = Ok tt w'
     ∨ send' c force w = Panic nil_dereference w' ∧ url_Parse (url cl) = None)
    ∧ w' = {| os := os w; heap := <[c := set_payload (buffer ls') cl]> (heap w);
             globalClient := globalClient w; dnaGlobalLock := dnaGlobalLock w;
             goroutines := goroutines w; posted := posted w ++ reqs;
             stdout := stdout w ++ out; forwarded := forwarded w |}
    ∧ (ls' = []
       ∨ ls' = ls ∧ reqs = [] ∧ out = [] ∧ (Z.of_nat (length ls) mod 2 ^ 32 = 0)%Z)
    ∧ (length reqs ≤ 1)%nat.
Proof.
  intros Hc Hmu Hp.
  destruct (Z.eq_dec (Z.of_nat (length ls) mod 2 ^ 32) 0) as [Hz|Hnz].
  - exists w, ls, [], []. rewrite (send_empty _ _ _ c force w cl ls Hc Hmu Hp Hz).
    split; [now left|]. split; [|split; [right; repeat split; exact Hz | simpl; lia]].
    destruct w as [o h g gl gs ps so fw], cl as [ak hn mc ipa tg ur mon cmu pl].
    simpl in *. subst. rewrite !app_nil_r. now rewrite list_insert_id.
  - rewrite (send_nonempty _ _ _ c force w cl ls Hc Hmu Hp Hnz).
    destruct (Marshal (buffer ls)) as [err|body].
    { eexists _, [], [], _. split; [left; reflexivity|].
      split; [reflexivity|]. split; [now left | simpl; lia]. }
    destruct (url_Parse (url cl)) as [u|].
    + eexists _, [], [_], _. split; [left; reflexivity|].
      split; [reflexivity|]. split; [now left | simpl; lia].
    + eexists _, [], [], []. split; [right; split; reflexivity|].
      split; [reflexivity|]. split; [now left | simpl; lia].
Qed.

(** X12. [send] never leaves a lock held and never blocks on one: called
    on a client nobody holds a lock of, it returns or panics, and
    afterwards the client's two locks are free again, its configuration is
    what it was, its buffer is empty or untouched, and no other client, no
    goroutine and no registry entry changed; at most one request was
    posted. *)
Theorem send_releases_its_locks c force w cl ls :
  heap w !! c = Some cl → c_mu cl = false → c_payload cl = buffer ls →
  ∃ w' cl',
    (send' c force w = Ok tt w' ∨ ∃ p, send' c force w = Panic p w')
    ∧ heap w' = <[c := cl']> (heap w)
    ∧ c_mu cl' = false ∧ mu (c_payload cl') = RWMutex_free
    ∧ (Lines (c_payload cl') = [] ∨ Lines (c_payload cl') = ls)
    ∧ (apikey cl', hostname cl', mac cl', ip cl', tags cl', url cl', c_monitor cl')
      = (apikey cl, hostname cl, mac cl, ip cl, tags cl, url cl, c_monitor cl)
    ∧ goroutines w' = goroutines w
    ∧ globalClient w' = globalClient w
    ∧ dnaGlobalLock w' = dnaGlobalLock w
    ∧ (length (posted w') ≤ length (posted w) + 1)%nat.
Proof.
  intros Hc Hmu Hp.
  destruct (send_idle c force w cl ls Hc Hmu Hp) as (w' & ls' & reqs & out & Hs & -> & Hls & Hn).
  eexists _, (set_payload (buffer ls') cl).
  split; [destruct Hs as [Hs|[Hs _]]; eauto|]. split; [reflexivity|].
  split; [exact Hmu|]. split; [reflexivity|].
  split; [simpl; destruct Hls as [->|[-> _]]; auto|].
  split; [reflexivity|]. do 3 (split; [reflexivity|]).
  simpl. rewrite length_app. lia.
Qed.

End MoreDelivery.

(** ** Shutdown and the monitor *)

Section Lifecycle.

Variable url_Parse : string → option URL.
Variable QueryEscape : string → string.
Variable http_Post : request → post_result.

#[local] Abbreviation send'' := (send url_Parse QueryEscape http_Post).
#[local] Abbreviation Close' := (Close url_Parse QueryEscape http_Post).
#[local] Abbreviation run_step' := (run_step url_Parse QueryEscape http_Post).
#[local] Abbreviation schedule' := (schedule url_Parse QueryEscape http_Post).

Lemma set_monitor_same cl m : c_monitor cl = Some m → set_monitor (Some m) cl = cl.
Proof. destruct cl. simpl. now intros ->. Qed.

Lemma with_same_client c cl w :
  heap w !! c = Some cl → set_heap (<[c := cl]> (heap w)) w = w.
Proof. intros H. destruct w. unfold set_heap. simpl in *. now rewrite list_insert_id. Qed.

Lemma run_step_timer c w cl m :
  heap w !! c = Some cl → c_monitor cl = Some m →
  run_step' c CaseTimer w = bind (send'' (m_client m) true) (fun _ => ret true) w.
Proof.
  intros Hc Hm. unfold run_step. unfold bind at 1.
  unfold on_client, on_monitor, zoom, gets. rewrite Hc, Hm.
  now rewrite (set_monitor_same _ _ Hm), (with_same_client _ _ _ Hc).
Qed.

(** X13. Every tick of the monitor delivers whatever is buffered, however
    few the records: with a non-empty buffer that serializes and an
    endpoint that parses, one request carrying all the buffered records is
    posted, the buffer is empty afterwards, and the loop goes on. *)
Theorem monitor_tick_delivers_buffered_records c w cl ls m body u :
  heap w !! c = Some cl → c_mu cl = false → c_payload cl = buffer ls →
  c_monitor cl = Some m → m_client m = c →
  ls ≠ [] → (Z.of_nat (length ls) < 2 ^ 32)%Z →
  Marshal (buffer ls) = inr body →
  url_Parse (url cl) = Some u →
  ∃ w',
    run_step' c CaseTimer w = Ok true w'
    ∧ posted w'
      = posted w ++ [send_request QueryEscape cl u (Z.quot (clock (os w)) 1000000) body]
    ∧ heap w' !! c = Some (set_payload (buffer []) cl)
    ∧ goroutines w' = goroutines w.
Proof.
  intros Hc Hmu Hp Hm Hmc Hne Hlt Hb Hu.
  rewrite (run_step_timer c w cl m Hc Hm), Hmc. unfold bind.
  rewrite (send_nonempty _ _ _ c true w cl ls Hc Hmu Hp (Size_nonzero ls Hne Hlt)), Hb, Hu.
  eexists. split; [reflexivity|]. split; [reflexivity|].
  split; [now apply lookup_delivered | reflexivity].
Qed.

(** X14. The monitor stops only when it was signalled: with nothing in
    the [done] channel its [done] case cannot be taken; with a signal in
    the channel it consumes the signal and its goroutine ends, without
    delivering what is buffered. *)
Theorem monitor_stops_only_when_signalled i c w cl m :
  goroutines w !! i = Some (GoMonitorRun c) →
  heap w !! c = Some cl → c_monitor cl = Some m →
  (done m = 0%nat → schedule' i CaseDone w = Blocked)
  ∧ (∀ d, done m = S d →
       ∃ w',
         schedule' i CaseDone w = Ok tt w'
         ∧ goroutines w' = delete i (goroutines w)
         ∧ heap w' = <[c := set_monitor (Some {| m_client := m_client m; done := d |}) cl]>
                       (heap w)
         ∧ posted w' = posted w).
Proof.
  intros Hg Hc Hm. unfold schedule. rewrite Hg.
  unfold run_step, bind, on_client, on_monitor, zoom, chan_recv, modify, ret.
  rewrite Hc, Hm. split.
  - intros ->. reflexivity.
  - intros d ->. eexists. split; [reflexivity|]. repeat split.
Qed.

(** [send] panics in one case only. *)
Lemma send_outcome c force w cl ls :
  heap w !! c = Some cl → c_mu cl = false → c_payload cl = buffer ls →
  (Z.of_nat (length ls) < 2 ^ 32)%Z →
  (ls ≠ [] ∧ (∃ body, Marshal (buffer ls) = inr body) ∧ url_Parse (url cl) = None
   ∧ send url_Parse QueryEscape http_Post c force w
     = Panic nil_dereference (delivered c cl [] [] w))
  ∨ ((ls = [] ∨ (∃ err, Marshal (buffer ls) = inl err)
      ∨ ∃ u, url_Parse (url cl) = Some u)
     ∧ ∃ w', send url_Parse QueryEscape http_Post c force w = Ok tt w').
Proof.
  intros Hc Hmu Hp Hlt.
  destruct ls as [|l0 ls0].
  { right. split; [now left|]. exists w.
    now apply (send_empty _ _ _ c force w cl []). }
  assert (Hne : l0 :: ls0 ≠ []) by discriminate.
  rewrite (send_nonempty _ _ _ c force w cl _ Hc Hmu Hp (Size_nonzero _ Hne Hlt)).
  destruct (Marshal (buffer (l0 :: ls0))) as [err|body].
  { right. split; [right; left; eauto | eauto]. }
  destruct (url_Parse (url cl)) as [u|].
  - right. split; [right; right; eauto | eauto].
  - left. split; [exact Hne|]. split; [eauto|]. split; reflexivity.
Qed.

(** X15. [Close] on an adapter that holds the client makes the final
    delivery and only then signals the monitor. It panics in one case
    only, a non-empty buffer that serializes with an endpoint that does
    not parse: the panic of the final delivery comes after the flush and
    before the signal, so the buffer is empty, nothing was posted and the
    monitor is left unsignalled. In every other case it returns: the
    buffer is empty, at most one request was posted, one signal is in the
    [done] channel, and the adapter has no client any more, so that a
    further [Close] through it does nothing. The process-wide client
    stays registered. *)
Theorem Close_delivers_then_signals l c w cl ls m :
  l_client l = Some c →
  heap w !! c = Some cl → c_mu cl = false → c_payload cl = buffer ls →
  c_monitor cl = Some m → done m = 0%nat →
  (Z.of_nat (length ls) < 2 ^ 32)%Z →
  (ls ≠ [] ∧ (∃ body, Marshal (buffer ls) = inr body) ∧ url_Parse (url cl) = None
   ∧ ∃ w',
       Close' l w = Panic nil_dereference w'
       ∧ heap w' !! c = Some (set_payload (buffer []) cl)
       ∧ c_monitor (set_payload (buffer []) cl) = Some m
       ∧ posted w' = posted w)
  ∨ ((ls = [] ∨ (∃ err, Marshal (buffer ls) = inl err)
      ∨ ∃ u, url_Parse (url cl) = Some u)
     ∧ ∃ l' w',
         Close' l w = Ok l' w'
         ∧ l_client l' = None ∧ next l' = next l
         ∧ heap w' !! c
           = Some (set_monitor (Some {| m_client := m_client m; done := 1 |})
                     (set_payload (buffer []) cl))
         ∧ (length (posted w') ≤ length (posted w) + 1)%nat
         ∧ globalClient w' = globalClient w
         ∧ goroutines w' = goroutines w
         ∧ Close' l' w' = Ok l' w').
Proof.
  intros Hl Hc Hmu Hp Hm Hd Hlt.
  assert (Hlen : (c < length (heap w))%nat) by (now apply lookup_lt_Some in Hc).
  unfold Close. rewrite Hl.
  destruct (send_outcome c true w cl ls Hc Hmu Hp Hlt)
    as [(Hne & Hb & Hu & Hpanic)|(Hcase & w2 & Hok)].
  { left. split; [exact Hne|]. split; [exact Hb|]. split; [exact Hu|].
    unfold bind at 1. rewrite Hpanic. eexists. split; [reflexivity|].
    split; [now apply lookup_delivered|]. split; [exact Hm|].
    simpl. apply app_nil_r. }
  right. split; [exact Hcase|].
  destruct (send_idle url_Parse QueryEscape http_Post c true w cl ls Hc Hmu Hp)
    as (w1 & ls' & reqs & out & Hs & Hw1 & Hls & Hn).
  assert (Hempty : ls' = []).
  { destruct Hls as [->|(-> & _ & _ & Hz)]; [reflexivity|].
    rewrite Z.mod_small in Hz by lia. now destruct ls. }
  subst ls'.
  destruct Hs as [Hs|[Hs _]]; [|rewrite Hok in Hs; discriminate Hs].
  unfold bind at 1. rewrite Hs.
  unfold bind, on_client, on_monitor, zoom, chan_send, ret. subst w1. simpl.
  rewrite list_lookup_insert_eq by assumption. simpl. rewrite Hm, Hd. simpl.
  eexists _, _. split; [reflexivity|]. simpl.
  rewrite list_insert_insert_eq, list_lookup_insert_eq by assumption.
  repeat split. rewrite length_app. lia.
Qed.

End Lifecycle.

(** ** The process between calls *)

Lemma monitors_app a b : monitors (a ++ b) = (monitors a + monitors b)%nat.
Proof. unfold monitors. now rewrite List.filter_app, length_app. Qed.

Lemma monitors_delete i gs : (monitors (delete i gs) ≤ monitors gs)%nat.
Proof.
  unfold monitors. revert i. induction gs as [|g gs IH]; intros [|i]; simpl; try lia.
  - destruct (is_monitor g); simpl; lia.
  - specialize (IH i). destruct (is_monitor g); simpl; lia.
Qed.

Lemma monitors_delete_monitor i gs c :
  gs !! i = Some (GoMonitorRun c) → (monitors (delete i gs) + 1 = monitors gs)%nat.
Proof.
  unfold monitors. revert i. induction gs as [|g gs IH]; intros [|i] H; simpl in *;
    try discriminate.
  - injection H as ->. simpl. lia.
  - specialize (IH i H). destruct (is_monitor g); simpl; lia.
Qed.

Lemma monitors_dispatched c n k : monitors (dispatched c n k) = 0%nat.
Proof. rewrite dispatched_count. unfold monitors. induction (k - (99 - n))%nat; auto. Qed.

Lemma client_of_dispatched c n k :
  Forall (fun g => client_of g = c) (dispatched c n k).
Proof. rewrite dispatched_count. induction (k - (99 - n))%nat; simpl; constructor; auto. Qed.

Lemma Forall_delete_goroutines {A} (P : A → Prop) i (l : list A) :
  Forall P l → Forall P (delete i l).
Proof.
  intros H. revert i. induction H as [|x l Hx Hl IH]; intros [|i]; simpl;
    try constructor; auto.
Qed.

Lemma holders_app a b : holders (a ++ b) = (holders a + holders b)%nat.
Proof. unfold holders. now rewrite List.filter_app, length_app. Qed.

Lemma holders_pos ads j l :
  ads !! j = Some l → holds_client l = true → (1 ≤ holders ads)%nat.
Proof.
  unfold holders. revert j. induction ads as [|a ads IH]; intros [|j] H Hl; simpl in *;
    try discriminate.
  - injection H as ->. rewrite Hl. simpl. lia.
  - specialize (IH j H Hl). destruct (holds_client a); simpl; lia.
Qed.

Lemma holders_insert ads j l l' :
  ads !! j = Some l → holds_client l = true → holds_client l' = false →
  (holders (<[j := l']> ads) + 1 = holders ads)%nat.
Proof.
  unfold holders. revert j. induction ads as [|a ads IH]; intros [|j] H Hl Hl'; simpl in *;
    try discriminate.
  - injection H as ->. rewrite Hl, Hl'. simpl. lia.
  - specialize (IH j H Hl Hl'). destruct (holds_client a); simpl; lia.
Qed.

Lemma holders_zero ads :
  holders ads = 0%nat → Forall (fun l => l_client l = None) ads.
Proof.
  unfold holders. induction ads as [|a ads IH]; simpl; [constructor|].
  unfold holds_client at 1. destruct (l_client a) eqn:Ha; simpl; [lia|].
  intros H. constructor; auto.
Qed.

(** The shape of a tidy world with a registered client. *)
Lemma tidy_world_registered n w g :
  tidy_world n w → globalClient w = Some g →
  g = 0%nat ∧ dnaGlobalLock w = false
  ∧ ∃ cl d ls,
      heap w = [cl] ∧ c_mu cl = false ∧ c_payload cl = buffer ls
      ∧ c_monitor cl = Some {| m_client := 0; done := d |}
      ∧ (d + n ≤ 1)%nat
      ∧ Forall (fun g => client_of g = 0%nat) (goroutines w)
      ∧ (monitors (goroutines w) ≤ 1)%nat.
Proof.
  intros [Hlock H] Hg. rewrite Hg in H.
  destruct H as (-> & cl & d & Hh & Hmu & Hp & Hm & Hd & Hgs & Hms).
  split; [reflexivity|]. split; [exact Hlock|].
  exists cl, d, (Lines (c_payload cl)). repeat split; auto.
  destruct (c_payload cl) as [ls m]. simpl in *. now subst m.
Qed.

Lemma tidy_world_intro n w cl d :
  dnaGlobalLock w = false → globalClient w = Some 0%nat →
  heap w = [cl] → c_mu cl = false → mu (c_payload cl) = RWMutex_free →
  c_monitor cl = Some {| m_client := 0; done := d |} →
  (d + n ≤ 1)%nat →
  Forall (fun g => client_of g = 0%nat) (goroutines w) →
  (monitors (goroutines w) ≤ 1)%nat →
  tidy_world n w.
Proof.
  intros Hl Hg Hh Hmu Hp Hm Hd Hgs Hms. split; [exact Hl|]. rewrite Hg.
  split; [reflexivity|]. exists cl, d. repeat split; auto.
Qed.

Lemma newDNALogger_disabled nx w :
  default "" (environ (os w) !! "PP_LOG_KEY") = "" →
  newDNALogger nx w = Ok {| next := nx; l_client := None |} w.
Proof. intros H. unfold newDNALogger, bind, Getenv, gets. now rewrite H. Qed.

Lemma newDNALogger_registered nx w g :
  default "" (environ (os w) !! "PP_LOG_KEY") ≠ "" →
  globalClient w = Some g → dnaGlobalLock w = false →
  newDNALogger nx w = Ok {| next := nx; l_client := None |} w.
Proof.
  intros Hne Hg Hlock. apply String.eqb_neq in Hne.
  destruct w as [o h gc gl gs ps so fw]. simpl in *. subst gc gl.
  unfold newDNALogger, bind, Getenv, gets, defer, on_dnaGlobalLock, zoom, ret.
  norm. rewrite Hne. reflexivity.
Qed.

Lemma Log_disabled l keyvals w :
  l_client l = None →
  Log l keyvals w
  = Ok (result_of l keyvals)
      (set_forwarded (forwarded w ++ match next l with Some _ => [keyvals] | None => [] end) w).
Proof.
  intros Hl. unfold Log, result_of, bind, ret, forward, modify. rewrite Hl.
  destruct (next l); [reflexivity|]. destruct w. unfold set_forwarded. simpl.
  now rewrite app_nil_r.
Qed.

(** Close the side conditions of [tidy_world_intro]. *)
Ltac tidy_side :=
  unfold set_payload, set_monitor, set_mu; simpl;
  first [ reflexivity | assumption | lia
        | match goal with
          | H : heap _ = [_] |- _ => rewrite H; reflexivity
          | H : c_payload _ = buffer _ |- _ => rewrite H; reflexivity
          end
        | apply Forall_app_2; [assumption | apply client_of_dispatched]
        | rewrite monitors_app, monitors_dispatched; lia
        | apply Forall_delete_goroutines; assumption
        | match goal with
          | |- (monitors (delete ?i ?gs) ≤ 1)%nat =>
              pose proof (monitors_delete i gs); lia
          end
        | idtac ].

Section ProcessProperties.

Variable url_Parse : string → option URL.
Variable QueryEscape : string → string.
Variable http_Post : request → post_result.

#[local] Abbreviation perform' := (perform url_Parse QueryEscape http_Post).

(** [send] on the registered client of a tidy world. *)
Lemma tidy_send n force w :
  tidy_world n w → globalClient w = Some 0%nat →
  ∃ w' cl d,
    (send url_Parse QueryEscape http_Post 0 force w = Ok tt w'
     ∨ send url_Parse QueryEscape http_Post 0 force w = Panic nil_dereference w')
    ∧ tidy_world n w' ∧ globalClient w' = Some 0%nat
    ∧ goroutines w' = goroutines w
    ∧ heap w = [cl] ∧ c_monitor cl = Some {| m_client := 0; done := d |}
    ∧ ∃ ls', heap w' = [set_payload (buffer ls') cl].
Proof.
  intros Ht Hg.
  destruct (tidy_world_registered n w 0 Ht Hg)
    as (_ & Hlock & cl & d & ls & Hh & Hmu & Hp & Hm & Hd & Hgs & Hms).
  assert (Hc : heap w !! 0%nat = Some cl) by (now rewrite Hh).
  destruct (send_idle url_Parse QueryEscape http_Post 0 force w cl ls Hc Hmu Hp)
    as (w' & ls' & reqs & out & Hs & -> & _ & _).
  eexists _, cl, d. split; [destruct Hs as [Hs|[Hs _]]; [left|right]; exact Hs|].
  rewrite Hh. simpl.
  split; [|repeat split; eauto].
  apply (tidy_world_intro n _ (set_payload (buffer ls') cl) d); tidy_side.
Qed.

Lemma tidy_set_goroutines n w gs :
  tidy_world n w → globalClient w = Some 0%nat →
  Forall (fun g => client_of g = 0%nat) gs → (monitors gs ≤ 1)%nat →
  tidy_world n (set_goroutines gs w).
Proof.
  intros Ht Hg Hgs Hms.
  destruct (tidy_world_registered n w 0 Ht Hg)
    as (_ & Hlock & cl & d & ls & Hh & Hmu & Hp & Hm & Hd & _ & _).
  apply (tidy_world_intro n _ cl d); tidy_side.
Qed.

Lemma tidy_perform p c :
  tidy p →
  match perform' c p with
  | Ok _ p' => tidy p'
  | Panic _ p' => tidy p'
  | Blocked => ∃ i, c = CallRun i CaseDone
  end.
Proof.
  intros [Hw Hads]. destruct p as [w ads]. simpl in Hw, Hads.
  destruct c as [nx|j keyvals|j|i ev|h]; unfold perform.
  - (* newDNALogger *)
    unfold bind, on_state, zoom, modify. simpl.
    destruct (String.eqb_spec (default "" (environ (os w) !! "PP_LOG_KEY")) "") as [He|Hne].
    { rewrite (newDNALogger_disabled nx w He). simpl. split; simpl.
      - rewrite holders_app. simpl. now rewrite Nat.add_0_r.
      - apply Forall_app_2; [exact Hads|]. constructor; [now left | constructor]. }
    destruct (globalClient w) as [g|] eqn:Hg.
    { rewrite (newDNALogger_registered nx w g Hne Hg (proj1 Hw)). simpl. split; simpl.
      - rewrite holders_app. simpl. now rewrite Nat.add_0_r.
      - apply Forall_app_2; [exact Hads|]. constructor; [now left | constructor]. }
    destruct Hw as [Hlock Hw]. rewrite Hg in Hw. destruct Hw as (Hh & Hgs & Hn).
    destruct (environ (os w) !! "PP_LOG_KEY") as [k|] eqn:Hk; [|now destruct Hne].
    simpl in Hne.
    rewrite (newDNALogger_first nx w k Hk Hne Hg Hlock). simpl. rewrite Hh, Hgs. simpl.
    split; simpl.
    + eapply tidy_world_intro; simpl; try reflexivity.
      * rewrite holders_app, Hn. unfold holders. simpl. lia.
      * repeat constructor.
    + apply Forall_app_2; [exact Hads|]. constructor; [now right | constructor].
  - (* Log *)
    cbn [adapters]. destruct (ads !! j) as [l|] eqn:Hj; [|now split].
    assert (Hl : l_client l = None ∨ l_client l = Some 0%nat).
    { rewrite Forall_forall in Hads. apply Hads. eapply list_elem_of_lookup_2, Hj. }
    unfold bind, on_state, zoom, ret. simpl.
    destruct Hl as [Hl|Hl].
    { rewrite (Log_disabled l keyvals w Hl). simpl. split; [|exact Hads]. simpl.
      destruct Hw as [Hlock Hw]. split; [exact Hlock|]. exact Hw. }
    assert (Hg : globalClient w = Some 0%nat).
    { destruct (globalClient w) as [g|] eqn:Hg.
      - destruct Hw as [_ Hw]. rewrite Hg in Hw. now destruct Hw as [-> _].
      - destruct Hw as [_ Hw]. rewrite Hg in Hw. destruct Hw as (_ & _ & Hn).
        pose proof (holders_pos ads j l Hj) as Hp. unfold holds_client in Hp.
        rewrite Hl in Hp. specialize (Hp eq_refl). lia. }
    destruct (tidy_world_registered _ w 0 Hw Hg)
      as (_ & Hlock & cl & d & ls & Hh & Hmu & Hp & Hm & Hd & Hgs & Hms).
    assert (Hc : heap w !! 0%nat = Some cl) by (now rewrite Hh).
    destruct (Log_scan keyvals) as [p|a] eqn:Hs.
    { rewrite (Log_scan_panic l 0 keyvals p w Hl Hs). simpl. now split. }
    assert (Hr : record_of (Z.quot (clock (os w)) 1000000) (hostname cl) keyvals
                 = Some {| Timestamp := Z.quot (clock (os w)) 1000000; App := hostname cl;
                           Line := msg a; Level := lvl a; Env := ""; Meta := kv a |})
      by (unfold record_of; now rewrite Hs).
    rewrite (Log_enabled l 0 w cl ls keyvals _ Hl Hc Hp Hr). simpl.
    split; [|exact Hads]. simpl.
    eapply (tidy_world_intro _ _ _ d); tidy_side.
  - (* Close *)
    cbn [adapters]. destruct (ads !! j) as [l|] eqn:Hj; [|now split].
    assert (Hl : l_client l = None ∨ l_client l = Some 0%nat).
    { rewrite Forall_forall in Hads. apply Hads. eapply list_elem_of_lookup_2, Hj. }
    unfold bind at 1. unfold on_state, zoom, modify. simpl.
    destruct Hl as [Hl|Hl].
    { unfold Close. rewrite Hl. unfold ret. simpl.
      rewrite list_insert_id by exact Hj. now split. }
    assert (Hhold : holds_client l = true) by (unfold holds_client; now rewrite Hl).
    pose proof (holders_pos ads j l Hj Hhold) as Hpos.
    assert (Hg : globalClient w = Some 0%nat).
    { destruct (globalClient w) as [g|] eqn:Hg.
      - destruct Hw as [_ Hw]. rewrite Hg in Hw. now destruct Hw as [-> _].
      - destruct Hw as [_ Hw]. rewrite Hg in Hw. destruct Hw as (_ & _ & Hn). lia. }
    unfold Close. rewrite Hl.
    destruct (tidy_send _ true w Hw Hg)
      as (w1 & cl & d & Hs & Ht1 & Hg1 & Hgs1 & Hh & Hm & ls' & Hh1).
    destruct (tidy_world_registered _ w1 0 Ht1 Hg1)
      as (_ & Hlock1 & cl1 & d1 & ls1 & Hh1' & Hmu1 & Hp1 & Hm1 & Hd1 & Hgsf & Hms1).
    rewrite Hh1 in Hh1'. injection Hh1' as <-.
    assert (d1 = d) by (simpl in Hm1; rewrite Hm in Hm1; now injection Hm1).
    subst d1. assert (d = 0%nat) by lia. subst d.
    destruct Hs as [Hs|Hs]; unfold bind; rewrite Hs; [|simpl; now split].
    unfold on_client, on_monitor, zoom, chan_send, ret. rewrite Hh1. simpl.
    rewrite Hm. simpl. split; simpl.
    + pose proof (holders_insert ads j l {| next := next l; l_client := None |}
                    Hj Hhold eq_refl).
      eapply (tidy_world_intro _ _ _ 1); tidy_side.
    + apply Forall_insert; [exact Hads | now left].
  - (* a goroutine runs *)
    unfold on_state, zoom. simpl. unfold schedule.
    destruct (goroutines w !! i) as [g|] eqn:Hi; [|now split].
    assert (Hg : globalClient w = Some 0%nat).
    { destruct (globalClient w) as [g0|] eqn:Hg.
      - destruct Hw as [_ Hw]. rewrite Hg in Hw. now destruct Hw as [-> _].
      - destruct Hw as [_ Hw]. rewrite Hg in Hw. destruct Hw as (_ & Hgs & _).
        now rewrite Hgs in Hi. }
    destruct (tidy_world_registered _ w 0 Hw Hg)
      as (_ & Hlock & cl & d & ls & Hh & Hmu & Hp & Hm & Hd & Hgs & Hms).
    assert (Hg0 : client_of g = 0%nat).
    { rewrite Forall_forall in Hgs. apply Hgs. eapply list_elem_of_lookup_2, Hi. }
    destruct g as [c force|c]; simpl in Hg0; subst c.
    + unfold bind, modify.
      assert (Ht : tidy_world (holders ads) (set_goroutines (delete i (goroutines w)) w)).
      { apply tidy_set_goroutines; auto.
        - now apply Forall_delete_goroutines.
        - pose proof (monitors_delete i (goroutines w)). lia. }
      destruct (tidy_send _ force _ Ht Hg) as (w1 & _ & _ & Hs & Ht1 & _).
      destruct Hs as [Hs|Hs]; rewrite Hs; simpl; now split.
    + destruct ev.
      * assert (Hc : heap w !! 0%nat = Some cl) by (now rewrite Hh).
        unfold bind at 1.
        rewrite (run_step_timer url_Parse QueryEscape http_Post 0 w cl _ Hc Hm). simpl.
        destruct (tidy_send _ true w Hw Hg) as (w1 & _ & _ & Hs & Ht1 & _).
        unfold bind. destruct Hs as [Hs|Hs]; rewrite Hs; simpl; now split.
      * unfold run_step, bind, on_client, on_monitor, zoom, chan_recv, modify, ret.
        rewrite Hh. simpl. rewrite Hm. simpl.
        destruct d as [|d]; [now exists i|]. simpl. split; [|exact Hads]. simpl.
        eapply (tidy_world_intro _ _ _ d); tidy_side.
  - (* the host changes *)
    unfold on_state, zoom, modify. simpl. split; [|exact Hads]. simpl.
    destruct Hw as [Hlock Hw]. split; [exact Hlock|]. exact Hw.
Qed.

Lemma reachable_tidy h p : reachable url_Parse QueryEscape http_Post h p → tidy p.
Proof.
  induction 1 as [|c p p' _ IH Hc|c p msg p' _ IH Hc].
  - split; simpl; [|constructor]. split; [reflexivity|]. simpl. auto.
  - pose proof (tidy_perform p c IH) as H. now rewrite Hc in H.
  - pose proof (tidy_perform p c IH) as H. now rewrite Hc in H.
Qed.

(** X16. However adapters are built, used and closed, and however the
    goroutines are scheduled, the process has at most one client: the
    registered one, created by the first adapter built with an API key and
    never replaced, with at most one monitor loop running for it; between
    calls none of the locks is held. *)
Theorem process_has_at_most_one_client h p :
  reachable url_Parse QueryEscape http_Post h p →
  dnaGlobalLock (state p) = false
  ∧ (length (heap (state p)) ≤ 1)%nat
  ∧ (globalClient (state p) = None ↔ heap (state p) = [])
  ∧ (∀ g, globalClient (state p) = Some g → g = 0%nat)
  ∧ (∀ cl, cl ∈ heap (state p) → c_mu cl = false ∧ mu (c_payload cl) = RWMutex_free)
  ∧ (monitors (goroutines (state p)) ≤ 1)%nat
  ∧ (heap (state p) = [] → goroutines (state p) = []).
Proof.
  intros Hr. destruct (reachable_tidy h p Hr) as [[Hlock Hw] _].
  split; [exact Hlock|].
  destruct (globalClient (state p)) as [g|].
  - destruct Hw as (-> & cl & d & Hh & Hmu & Hp & Hm & Hd & Hgs & Hms).
    rewrite Hh. simpl. split; [lia|]. split; [split; discriminate|].
    split; [now intros g [= <-]|].
    split; [intros cl' Hin; apply list_elem_of_singleton in Hin as ->; auto|].
    split; [exact Hms | discriminate].
  - destruct Hw as (Hh & Hgs & _). rewrite Hh, Hgs. simpl.
    split; [lia|]. split; [tauto|]. split; [discriminate|].
    split; [intros cl Hin; now apply elem_of_nil in Hin|]. split; [unfold monitors; simpl; lia | auto].
Qed.

(** X17. No call of the application and no delivery ever blocks, on a
    lock or on the [done] channel: from every process that calls lead to,
    building an adapter, logging, closing, a delivery goroutine and a
    monitor tick all return or panic; the only thing that waits is the
    monitor loop, for the signal of [Close]. *)
Theorem only_the_monitor_waits h p c :
  reachable url_Parse QueryEscape http_Post h p →
  perform' c p = Blocked → ∃ i, c = CallRun i CaseDone.
Proof.
  intros Hr Hb. pose proof (tidy_perform p c (reachable_tidy h p Hr)) as H.
  now rewrite Hb in H.
Qed.

End ProcessProperties.

(** ** The width of [Size] *)

Section Width.

Variable url_Parse : string → option URL.
Variable QueryEscape : string → string.
Variable http_Post : request → post_result.

(** X18. [Size] returns the length truncated to 32 bits, so a buffer
    whose length is a multiple of 2^32 looks empty to [send]: it returns
    at once, posts nothing and does not flush. *)
Theorem send_passes_over_buffer_of_2_32_records c force w cl ls :
  heap w !! c = Some cl → c_mu cl = false → c_payload cl = buffer ls →
  (Z.of_nat (length ls) mod 2 ^ 32 = 0)%Z →
  Size (buffer ls) = Ok 0%Z (buffer ls)
  ∧ send url_Parse QueryEscape http_Post c force w = Ok tt w.
Proof.
  intros Hc Hmu Hp Hz. split.
  - rewrite Size_buffer. now rewrite Hz.
  - now apply (send_empty _ _ _ c force w cl ls).
Qed.


Lemma reachable_perform_all h cs : ∀ p,
  reachable url_Parse QueryEscape http_Post h p →
  reachable url_Parse QueryEscape http_Post h (perform_all url_Parse QueryEscape http_Post cs p).
Proof.
  induction cs as [|c cs IH]; intros p Hp; [exact Hp|]. simpl.
  destruct (perform url_Parse QueryEscape http_Post c p) as [[] p'|msg p'|] eqn:Hc.
  - apply IH. eapply reachable_return; eauto.
  - apply IH. eapply reachable_panic; eauto.
  - now apply IH.
Qed.

End Width.

Lemma send_passes_over_buffer_of_2_32_records_witness :
  length (repeat Sample.hello Scenario.big) = Scenario.big
  ∧ Size (buffer (repeat Sample.hello Scenario.big)) = Ok 0%Z (buffer (repeat Sample.hello Scenario.big))
  ∧ send Sample.parse Sample.escape Sample.accepted 0 false
      (Sample.running (repeat Sample.hello Scenario.big))
    = Ok tt (Sample.running (repeat Sample.hello Scenario.big)).
Proof.
  split; [apply repeat_length|].
  refine (send_passes_over_buffer_of_2_32_records Sample.parse Sample.escape Sample.accepted
            0%nat false (Sample.running (repeat Sample.hello Scenario.big))
            (Sample.the_client (repeat Sample.hello Scenario.big)) (repeat Sample.hello Scenario.big)
            eq_refl eq_refl eq_refl _).
  rewrite repeat_length. unfold Scenario.big. rewrite Z2Nat.id by (apply Z.pow_nonneg; lia).
  apply Z.mod_same. apply Z.pow_nonzero; lia.
Defined.

(** ** The further statements at concrete inputs *)

Lemma getAddr_reports_first_usable_interface_witness :
  getAddr_interfaces [Scenario.interface] = ("10.0.0.7", "02:42")
  ∧ occurs "/" (getAddr_interfaces [Scenario.interface]).1 = false
  ∧ (occurs "/" "10.0.0.7" = false → (getAddr_interfaces [Scenario.interface]).1 = "10.0.0.7").
Proof.
  apply (getAddr_reports_first_usable_interface [] Scenario.interface []
           [AddrOther; AddrIPNet {| IsLoopback := true; To4 := Some "127.0.0.1" |}]
           {| IsLoopback := false; To4 := Some "10.0.0.7" |} "10.0.0.7" []);
    first [ reflexivity | discriminate | repeat constructor ].
Defined.

Lemma getAddr_without_usable_interface_witness :
  getAddr (start Scenario.no_hardware) = Ok ("", "") (start Scenario.no_hardware).
Proof.
  apply (getAddr_without_usable_interface (start Scenario.no_hardware)).
  simpl. repeat constructor.
Defined.

Lemma newDNALogger_configures_client_witness :
  ∃ l w' cl,
    newDNALogger None (start Sample.key_set) = Ok l w'
    ∧ l_client l = Some 0%nat
    ∧ heap w' = [cl]
    ∧ goroutines w' = [GoMonitorRun 0]
    ∧ hostname cl = "hostname.not.provided"
    ∧ url cl = logdnaBaseURL
    ∧ (ip cl, mac cl) = ("10.0.0.7", "02:42").
Proof.
  destruct (newDNALogger_configures_client None (start Sample.key_set) "secret")
    as (l & w' & cl & Hn & _ & Hl & _ & Hh & Hg & _ & _ & _ & Hhost & _ & Hurl & _ & Ha & _);
    [reflexivity | discriminate | reflexivity | reflexivity |].
  exists l, w', cl. repeat split; try assumption.
  - apply Hhost. now left.
  - apply Hurl. now left.
  - unfold getAddr, gets in Ha. simpl in Ha. injection Ha as <- <-. reflexivity.
Defined.

Lemma tags_parameter_is_PP_LOG_TAGS_witness :
  ∃ l w' cl,
    newDNALogger None (start Sample.key_set) = Ok l w'
    ∧ heap w' !! 0%nat = Some cl
    ∧ Join (tags cl) "," = "a,b"
    ∧ ∀ now, send_query cl now !! "tags" = Some ["a,b"].
Proof.
  apply (tags_parameter_is_PP_LOG_TAGS None (start Sample.key_set) "secret");
    first [ reflexivity | discriminate ].
Defined.


Lemma Log_appends_one_record_or_panics_witness :
  (∃ p, Log Sample.adapter Sample.keyvals (Sample.running []) = Panic p (Sample.running []))
  ∨ (∃ ln w',
       Log Sample.adapter Sample.keyvals (Sample.running [])
       = Ok (result_of Sample.adapter Sample.keyvals) w'
       ∧ (c_payload <$> heap w' !! 0%nat) = Some (buffer ([] ++ [ln]))
       ∧ Timestamp ln = Z.quot (clock (os (Sample.running []))) 1000000
       ∧ App ln = hostname (Sample.the_client [])
       ∧ Env ln = ""
       ∧ Meta ln !! "msg" = None ∧ Meta ln !! "level" = None
       ∧ goroutines w'
         = goroutines (Sample.running [])
           ++ (if (100 <=? Z.of_nat (length (@nil line)) + 1)%Z then [GoSend 0 false] else [])
       ∧ posted w' = posted (Sample.running [])
       ∧ forwarded w'
         = forwarded (Sample.running [])
           ++ match next Sample.adapter with Some _ => [Sample.keyvals] | None => [] end).
Proof.
  apply (Log_appends_one_record_or_panics Sample.adapter 0%nat (Sample.running [])
           (Sample.the_client []) [] Sample.keyvals); reflexivity.
Defined.

Lemma Log_panics_on_odd_length_witness :
  ∃ p, Log Sample.adapter [VString "user"; VString "ann"; VString "request"]
         (Sample.running []) = Panic p (Sample.running []).
Proof.
  apply (Log_panics_on_odd_length Sample.adapter 0%nat); reflexivity.
Defined.

Lemma Log_returns_on_well_formed_pairs_witness :
  ∃ ln w',
    Log Sample.adapter (alternate [(VString "user", VString "ann"); (VInt 7, VBool true)])
      (Sample.running [])
    = Ok None w'
    ∧ (c_payload <$> heap w' !! 0%nat) = Some (buffer ([] ++ [ln]))
    ∧ (Forall (fun p => reserved p.1 = false)
         [(VString "user", VString "ann"); (VInt 7, VBool true)]
       → Line ln = "" ∧ Level ln = "info").
Proof.
  apply (Log_returns_on_well_formed_pairs Sample.adapter 0%nat (Sample.running [])
           (Sample.the_client []) []
           [(VString "user", VString "ann"); (VInt 7, VBool true)]);
    first [ reflexivity | repeat constructor ].
Defined.

Lemma Logs_buffer_all_and_count_deliveries_witness :
  ∃ w',
    Logs Sample.adapter (repeat Sample.keyvals 3) (Sample.running (repeat Sample.hello 98))
    = Ok tt w'
    ∧ (c_payload <$> heap w' !! 0%nat)
      = Some (buffer (repeat Sample.hello 98 ++ repeat Sample.hello 3))
    ∧ goroutines w' = [GoMonitorRun 0; GoSend 0 false; GoSend 0 false].
Proof.
  destruct (Logs_buffer_all_and_count_deliveries Sample.adapter 0%nat
              (Sample.running (repeat Sample.hello 98))
              (Sample.the_client (repeat Sample.hello 98)) (repeat Sample.hello 98)
              (repeat Sample.keyvals 3) (repeat Sample.hello 3))
    as (w' & H1 & H2 & _ & H3 & _); try reflexivity.
  exists w'. split; [exact H1|]. split; [exact H2 | exact H3].
Defined.

Lemma send_answered_flushes_and_reports_rejection_witness :
  ∃ w',
    send Sample.parse Sample.escape Scenario.rejected 0 false (Sample.running [Sample.hello])
    = Ok tt w'
    ∧ heap w' !! 0%nat = Some (Sample.the_client [])
    ∧ length (posted w') = 1%nat
    ∧ stdout w' = ["error making logdna injest request service unavailable"].
Proof.
  destruct (send_answered_flushes_and_reports_rejection Sample.parse Sample.escape
              Scenario.rejected 0%nat false (Sample.running [Sample.hello])
              (Sample.the_client [Sample.hello]) [Sample.hello] (Sample.body 1)
              Sample.endpoint 503 (inr "service unavailable")
              eq_refl eq_refl eq_refl ltac:(discriminate) eq_refl eq_refl eq_refl eq_refl)
    as (w' & H1 & H2 & H3 & _ & H4).
  exists w'. split; [exact H1|]. split; [exact H2|]. split; [now rewrite H3|].
  destruct H4 as (text & -> & ->); [lia | reflexivity].
Defined.

Lemma send_unparsable_endpoint_panics_after_flush_witness :
  ∃ w',
    send Sample.parse Sample.escape Sample.accepted 0 false
      (Scenario.misconfigured [Sample.hello])
    = Panic nil_dereference w'
    ∧ heap w' !! 0%nat = Some (Scenario.no_endpoint [])
    ∧ posted w' = []
    ∧ stdout w' = [].
Proof.
  destruct (send_unparsable_endpoint_panics_after_flush Sample.parse Sample.escape
              Sample.accepted 0%nat false (Scenario.misconfigured [Sample.hello])
              (Scenario.no_endpoint [Sample.hello]) [Sample.hello] (Sample.body 1)
              eq_refl eq_refl eq_refl ltac:(discriminate) eq_refl eq_refl eq_refl)
    as (w' & H1 & H2 & _ & _ & H3 & H4).
  exists w'. repeat split; assumption.
Defined.

Lemma send_releases_its_locks_witness :
  ∃ w' cl',
    (send Sample.parse Sample.escape Sample.unreachable 0 false (Sample.running [Sample.hello])
     = Ok tt w'
     ∨ ∃ p, send Sample.parse Sample.escape Sample.unreachable 0 false
              (Sample.running [Sample.hello]) = Panic p w')
    ∧ heap w' = [cl']
    ∧ c_mu cl' = false ∧ mu (c_payload cl') = RWMutex_free.
Proof.
  destruct (send_releases_its_locks Sample.parse Sample.escape Sample.unreachable 0%nat false
              (Sample.running [Sample.hello]) (Sample.the_client [Sample.hello])
              [Sample.hello])
    as (w' & cl' & H1 & H2 & H3 & H4 & _); try reflexivity.
  exists w', cl'. repeat split; assumption.
Defined.

Lemma monitor_tick_delivers_buffered_records_witness :
  ∃ w',
    run_step Sample.parse Sample.escape Sample.accepted 0 CaseTimer
      (Sample.running [Sample.hello; Sample.hello])
    = Ok true w'
    ∧ posted w'
      = [send_request Sample.escape (Sample.the_client [Sample.hello; Sample.hello])
           Sample.endpoint Sample.now (Sample.body 2)]
    ∧ heap w' !! 0%nat = Some (Sample.the_client [])
    ∧ goroutines w' = [GoMonitorRun 0].
Proof.
  apply (monitor_tick_delivers_buffered_records Sample.parse Sample.escape Sample.accepted
           0%nat (Sample.running [Sample.hello; Sample.hello])
           (Sample.the_client [Sample.hello; Sample.hello]) [Sample.hello; Sample.hello]
           {| m_client := 0; done := 0 |} (Sample.body 2) Sample.endpoint);
    first [ reflexivity | discriminate ].
Defined.

Lemma monitor_stops_only_when_signalled_witness :
  schedule Sample.parse Sample.escape Sample.accepted 0 CaseDone (Sample.running [])
  = Blocked.
Proof.
  apply (proj1 (monitor_stops_only_when_signalled Sample.parse Sample.escape Sample.accepted
                  0%nat 0%nat (Sample.running []) (Sample.the_client [])
                  {| m_client := 0; done := 0 |} eq_refl eq_refl eq_refl)).
  reflexivity.
Defined.

Lemma Close_delivers_then_signals_witness :
  (∃ l' w',
     Close Sample.parse Sample.escape Sample.accepted Sample.adapter
       (Sample.running [Sample.hello])
     = Ok l' w'
     ∧ l_client l' = None
     ∧ heap w' !! 0%nat
       = Some (set_monitor (Some {| m_client := 0; done := 1 |}) (Sample.the_client []))
     ∧ globalClient w' = Some 0%nat)
  ∧ (∃ w',
       Close Sample.parse Sample.escape Sample.accepted Sample.adapter
         (Scenario.misconfigured [Sample.hello])
       = Panic nil_dereference w'
       ∧ heap w' !! 0%nat = Some (Scenario.no_endpoint [])
       ∧ posted w' = [])
  ∧ (∃ l' w',
       Close Sample.parse Sample.escape Sample.accepted Sample.adapter
         (Scenario.misconfigured [])
       = Ok l' w'
       ∧ heap w' !! 0%nat
         = Some (set_monitor (Some {| m_client := 0; done := 1 |}) (Scenario.no_endpoint []))).
Proof.
  split; [|split].
  - destruct (Close_delivers_then_signals Sample.parse Sample.escape Sample.accepted
                Sample.adapter 0%nat (Sample.running [Sample.hello])
                (Sample.the_client [Sample.hello]) [Sample.hello]
                {| m_client := 0; done := 0 |}
                eq_refl eq_refl eq_refl eq_refl eq_refl eq_refl eq_refl)
      as [(_ & _ & Hu & _)|(_ & l' & w' & H1 & H2 & _ & H3 & _ & H4 & _)].
    + vm_compute in Hu. discriminate Hu.
    + exists l', w'. repeat split; assumption.
  - destruct (Close_delivers_then_signals Sample.parse Sample.escape Sample.accepted
                Sample.adapter 0%nat (Scenario.misconfigured [Sample.hello])
                (Scenario.no_endpoint [Sample.hello]) [Sample.hello]
                {| m_client := 0; done := 0 |}
                eq_refl eq_refl eq_refl eq_refl eq_refl eq_refl eq_refl)
      as [(_ & _ & _ & w' & H1 & H2 & _ & H3)|([He|[[err He]|[u He]]] & _)].
    + exists w'. repeat split; assumption.
    + discriminate He.
    + vm_compute in He. discriminate He.
    + vm_compute in He. discriminate He.
  - destruct (Close_delivers_then_signals Sample.parse Sample.escape Sample.accepted
                Sample.adapter 0%nat (Scenario.misconfigured [])
                (Scenario.no_endpoint []) []
                {| m_client := 0; done := 0 |}
                eq_refl eq_refl eq_refl eq_refl eq_refl eq_refl eq_refl)
      as [(Hne & _)|(_ & l' & w' & H1 & _ & _ & H3 & _)].
    + now contradiction Hne.
    + exists l', w'. split; [exact H1 | exact H3].
Defined.

Lemma process_has_at_most_one_client_witness :
  length (adapters Scenario.finished) = 2%nat
  ∧ length (heap (state Scenario.finished)) = 1%nat
  ∧ dnaGlobalLock (state Scenario.finished) = false
  ∧ (length (heap (state Scenario.finished)) ≤ 1)%nat
  ∧ (globalClient (state Scenario.finished) = None ↔ heap (state Scenario.finished) = [])
  ∧ (∀ g, globalClient (state Scenario.finished) = Some g → g = 0%nat)
  ∧ (∀ cl, cl ∈ heap (state Scenario.finished) →
       c_mu cl = false ∧ mu (c_payload cl) = RWMutex_free)
  ∧ (monitors (goroutines (state Scenario.finished)) ≤ 1)%nat
  ∧ (heap (state Scenario.finished) = [] → goroutines (state Scenario.finished) = []).
Proof.
  split; [reflexivity|]. split; [reflexivity|].
  apply (process_has_at_most_one_client Sample.parse Sample.escape Sample.accepted
           Sample.key_set Scenario.finished).
  apply reachable_perform_all. apply reachable_start.
Defined.

Lemma only_the_monitor_waits_witness :
  perform Sample.parse Sample.escape Sample.accepted (CallRun 0 CaseDone) Scenario.waiting
  = Blocked
  ∧ ∃ i, CallRun 0 CaseDone = CallRun i CaseDone.
Proof.
  split; [reflexivity|].
  apply (only_the_monitor_waits Sample.parse Sample.escape Sample.accepted
           Sample.key_set Scenario.waiting (CallRun 0 CaseDone)).
  - apply reachable_perform_all. apply reachable_start.
  - reflexivity.
Defined.
